(** * Lib_Pal_RAG: chunking and the query pipeline

    A shallow embedding of [document_processor.py] (the overlapping,
    boundary-aware chunker) and of [rag_pipeline.py] (retrieval, context
    assembly under a length budget, generation with fall-backs, source
    formatting), with the properties the specification states about them;
    and of the code around them: the readers of [document_processor.py],
    [gemini_client.py], [create_vector_store] of [vector_store.py] and the
    session handlers of [app.py], with what the code shows of them.

    Conventions of the embedding.
    - A Python [str] is a [list ascii]: one element per character, with
      characters restricted to the code points below 256.  [len] is the
      length of the list.
    - Python [int]s are [Z].  Slice bounds follow Python's clamping rules,
      [str.rfind] answers [-1] when nothing is found.
    - The [while] loop of the chunker is run with fuel: [None] means that
      the fuel was used up before the loop left, never a result of the code.
    - An exception is a value of [exn]; code that may raise lives in the
      [result] monad, and [try_except] is the [try ... except Exception]
      block.  Calls to the logger and to the widgets are not modelled.
    - The libraries (PyPDF2, python-docx, the codecs, FAISS, the Gemini
      API) are records of functions, one per call the code makes. *)

From Stdlib Require Import ZArith Ascii String DecimalString Lia.
From stdpp Require Import gmap strings list sorting.

Local Open Scope Z_scope.

(** ** Python strings *)

Abbreviation str := (list ascii).

Definition lit (s : string) : str := list_ascii_of_string s.
Arguments lit : simpl never.

Definition len (s : str) : Z := Z.of_nat (length s).

(** [str.isspace] on one character, for code points below 256. *)
Definition isspace (c : ascii) : bool :=
  let n := nat_of_ascii c in
  ((9 <=? n) && (n <=? 13) || (28 <=? n) && (n <=? 32)
   || (n =? 133) || (n =? 160))%nat.

Fixpoint lstrip (s : str) : str :=
  match s with
  | c :: s' => if isspace c then lstrip s' else s
  | [] => []
  end.

Definition rstrip (s : str) : str := reverse (lstrip (reverse s)).

(** [s.strip()] *)
Definition strip (s : str) : str := rstrip (lstrip s).

(** [not l], for a string or a list. *)
Definition is_nil {A} (l : list A) : bool :=
  match l with [] => true | _ :: _ => false end.

(** A slice bound [i] of a string of length [n], as Python clamps it. *)
Definition clamp (n i : Z) : Z :=
  if i <? 0 then Z.max (i + n) 0 else Z.min i n.

(** [s[start:stop]] *)
Definition slice (s : str) (start stop : Z) : str :=
  let a := clamp (len s) start in
  let b := clamp (len s) stop in
  take (Z.to_nat (b - a)) (drop (Z.to_nat a) s).

(** Position of the last occurrence of [c] in [s], if any. *)
Fixpoint last_index (c : ascii) (s : str) : option nat :=
  match s with
  | [] => None
  | x :: s' =>
      match last_index c s' with
      | Some k => Some (S k)
      | None => if Ascii.eqb x c then Some O else None
      end
  end.

(** [s.rfind(c, start, stop)] for a one-character [c]. *)
Definition rfind (c : ascii) (s : str) (start stop : Z) : Z :=
  match last_index c (slice s start stop) with
  | Some k => clamp (len s) start + Z.of_nat k
  | None => -1
  end.

(** ** document_processor.py *)

Module DocumentProcessor.

Record t := mk { chunk_size : Z; chunk_overlap : Z }.

(** [DocumentProcessor()] with the default arguments. *)
Definition with_defaults : t := mk 1000 200.

Section Chunking.
Variable self : t.
Variable text : str.

(** Lines 128-145: the end of the window that starts at [start], after
    the search for a sentence or word boundary. *)
Definition cut_point (start : Z) : Z :=
  let end_ := start + chunk_size self in
  if end_ <? len text then
    let last_period := rfind "." text start end_ in
    let last_exclamation := rfind "!" text start end_ in
    let last_question := rfind "?" text start end_ in
    let sentence_end :=
      Z.max (Z.max last_period last_exclamation) last_question in
    if sentence_end >? start then sentence_end + 1
    else
      let last_space := rfind " " text start end_ in
      if last_space >? start then last_space else end_
  else end_.

(** Lines 147-149: the chunk of the window is appended unless it is
    empty after stripping. *)
Definition append_chunk (chunks : list str) (start end_ : Z) : list str :=
  let chunk := strip (slice text start end_) in
  match chunk with
  | [] => chunks
  | _ :: _ => chunks ++ [chunk]
  end.

(** Lines 127-154: the [while] loop, one iteration per unit of fuel. *)
Fixpoint split_loop (fuel : nat) (start : Z) (chunks : list str)
  : option (list str) :=
  match fuel with
  | O => None
  | S fuel' =>
      if start <? len text then
        let end_ := cut_point start in
        let chunks' := append_chunk chunks start end_ in
        let start' := end_ - chunk_overlap self in
        if start' <=? 0 then Some chunks'
        else split_loop fuel' start' chunks'
      else Some chunks
  end.

(** The same loop, recording the bounds of every window it visits. *)
Fixpoint split_windows (fuel : nat) (start : Z) (ws : list (Z * Z))
  : option (list (Z * Z)) :=
  match fuel with
  | O => None
  | S fuel' =>
      if start <? len text then
        let end_ := cut_point start in
        let start' := end_ - chunk_overlap self in
        if start' <=? 0 then Some (ws ++ [(start, end_)])
        else split_windows fuel' start' (ws ++ [(start, end_)])
      else Some ws
  end.

Definition _split_text_into_chunks (fuel : nat) : option (list str) :=
  if len text <=? chunk_size self then Some [text]
  else split_loop fuel 0 [].
End Chunking.

End DocumentProcessor.

(** ** rag_pipeline.py *)

Module RAGPipeline.

(** An instance of [Exception]; [str(e)] is its message. *)
Inductive exn := Exception (msg : str).

Definition str_of_exn (e : exn) : str :=
  match e with Exception msg => msg end.

(** A computation that returns a value or raises. *)
Inductive result (A : Type) := Ok (a : A) | Raise (e : exn).
Arguments Ok {A} a.
Arguments Raise {A} e.

#[global] Instance result_bind : MBind result := fun A B f m =>
  match m with
  | Ok a => f a
  | Raise e => Raise e
  end.

(** [try: body except Exception as e: handler e] *)
Definition try_except {A} (body : result A) (handler : exn -> result A)
  : result A :=
  match body with
  | Ok a => Ok a
  | Raise e => handler e
  end.

(** The values a chunk's metadata holds: file names and kinds are strings,
    [chunk_id] is an integer. *)
Inductive MetaValue := MStr (s : str) | MInt (n : Z).

(** [str(v)], as an f-string formats [v]. *)
Definition py_str (v : MetaValue) : str :=
  match v with
  | MStr s => s
  | MInt n => lit (NilZero.string_of_int (Z.to_int n))
  end.

Definition str_of_nat (n : nat) : str :=
  lit (NilZero.string_of_uint (Nat.to_uint n)).

Definition nl : str := ["010"%char].

(** [sep.join(parts)] *)
Fixpoint join (sep : str) (parts : list str) : str :=
  match parts with
  | [] => []
  | p :: ps =>
      match ps with
      | [] => p
      | _ :: _ => p ++ sep ++ join sep ps
      end
  end.

Section Pipeline.
(** Scores are floats; only their comparison [<] is used. *)
Context {Score : Type} (score_lt : Score -> Score -> bool).

(** A langchain [Document]. *)
Record Document := mkDocument {
  page_content : str;
  doc_metadata : gmap string MetaValue }.

(** The dictionaries with keys ["content"], ["metadata"] and ["score"]:
    a retrieved document, and a source shown to the user. *)
Record Hit := mkHit {
  content : str;
  metadata : gmap string MetaValue;
  score : Score }.

(** The dictionary [query] returns. *)
Record QueryResponse := mkResponse {
  answer : str;
  sources : list Hit }.

(** The two collaborators, by the one method the pipeline calls. *)
Record VectorStore := mkStore {
  similarity_search_with_score :
    str -> Z -> result (list (Document * Score)) }.

Record GeminiClient := mkClient {
  generate_response : str -> result str }.

Record t := mk {
  vector_store : VectorStore;
  gemini_client : GeminiClient;
  max_context_length : Z }.

(** [l.sort(key=lambda x: x["score"], reverse=True)]: a stable sort by
    decreasing score, here by insertion. *)
Fixpoint insert_by_score (x : Hit) (l : list Hit) : list Hit :=
  match l with
  | [] => [x]
  | y :: l' =>
      if score_lt (score x) (score y) then y :: insert_by_score x l'
      else x :: l
  end.

Definition sort_by_score (l : list Hit) : list Hit :=
  foldr insert_by_score [] l.

Definition _retrieve_documents (self : t) (query : str) (k : Z)
  : result (list Hit) :=
  try_except
    (results ← similarity_search_with_score (vector_store self) query k;
     let formatted_results :=
       map (fun r : Document * Score =>
              mkHit (page_content r.1) (doc_metadata r.1) r.2) results in
     Ok (sort_by_score formatted_results))
    (fun e => Ok []).

(** Line 84: the block of the document at position [i] of the list. *)
Definition doc_text (i : nat) (doc : Hit) : str :=
  lit "[Source " ++ str_of_nat (i + 1) ++ lit " - "
    ++ py_str (default (MStr (lit "Unknown")) (metadata doc !! "source"))
    ++ lit "]" ++ nl ++ content doc ++ nl.

(** Lines 82-91: the loop over [enumerate(relevant_docs)], with its
    [break]. *)
Fixpoint prepare_loop (max_length : Z) (i : nat) (docs : list Hit)
    (context_parts : list str) (current_length : Z) : list str :=
  match docs with
  | [] => context_parts
  | doc :: docs' =>
      let t := doc_text i doc in
      if current_length + len t >? max_length then context_parts
      else prepare_loop max_length (S i) docs'
             (context_parts ++ [t]) (current_length + len t)
  end.

(** [context_parts] when the loop has ended. *)
Definition context_parts (self : t) (relevant_docs : list Hit) : list str :=
  prepare_loop (max_context_length self) 0 relevant_docs [] 0.

Definition _prepare_context (self : t) (relevant_docs : list Hit) : str :=
  join nl (context_parts self relevant_docs).

Definition prompt (question context : str) : str :=
  lit "Based on the following context from uploaded documents, please answer the user's question. 
If the context doesn't contain enough information to answer the question, please say so clearly.

Context:
" ++ context ++ lit "

Question: " ++ question ++ lit "

Instructions:
- Provide a clear, accurate, and helpful answer based on the context
- If information is incomplete or unclear, mention this
- Reference specific sources when possible
- If the context doesn't contain relevant information, state this clearly
- Be conversational but informative

Answer:".

Definition _generate_answer (self : t) (question context : str)
  : result str :=
  try_except
    (answer ← generate_response (gemini_client self)
                (prompt question context);
     if is_nil answer || is_nil (strip answer) then
       Ok (lit "I was unable to generate an answer to your question. Please try rephrasing your question or check if your documents contain relevant information.")
     else Ok answer)
    (fun e =>
       Ok (lit "I encountered an error while generating an answer: "
             ++ str_of_exn e)).

(** Lines 135-139: one source dictionary. *)
Definition source_info (doc : Hit) : Hit :=
  mkHit (if len (content doc) >? 500
         then slice (content doc) 0 500 ++ lit "..."
         else content doc)
        (metadata doc)
        (score doc).

Definition _format_sources (relevant_docs : list Hit) : list Hit :=
  map source_info relevant_docs.

Definition query (self : t) (question : str) (num_sources : Z)
  : result QueryResponse :=
  try_except
    (relevant_docs ← _retrieve_documents self question num_sources;
     if is_nil relevant_docs then
       Ok (mkResponse
             (lit "I couldn't find any relevant information in the uploaded documents to answer your question.")
             [])
     else
       let context := _prepare_context self relevant_docs in
       answer ← _generate_answer self question context;
       let sources := _format_sources relevant_docs in
       Ok (mkResponse answer sources))
    (fun e =>
       Ok (mkResponse
             (lit "An error occurred while processing your question: "
                ++ str_of_exn e)
             [])).

Definition update_vector_store (self : t) (new_vector_store : VectorStore)
  : t :=
  mk new_vector_store (gemini_client self) (max_context_length self).
End Pipeline.

End RAGPipeline.

(** ** Windows and overlaps *)

(** What the specification calls removing the overlap: the first piece
    whole, every later piece without its first [overlap] characters. *)
Definition remove_overlaps (overlap : Z) (pieces : list str) : str :=
  match pieces with
  | [] => []
  | p :: ps => p ++ concat (map (drop (Z.to_nat overlap)) ps)
  end.

(** The strings of a list that are not empty. *)
Definition nonempty_chunks (l : list str) : list str :=
  List.filter (fun c => negb (is_nil c)) l.

(** Every window starts [overlap] characters before the end of the one
    before it, the first at [start]. *)
Fixpoint chained (overlap start : Z) (ws : list (Z * Z)) : Prop :=
  match ws with
  | [] => True
  | w :: ws' => w.1 = start /\ chained overlap (w.2 - overlap) ws'
  end.

(** No window ends before the one before it, nor before [p]. *)
Fixpoint ends_nondecreasing (p : Z) (ws : list (Z * Z)) : Prop :=
  match ws with
  | [] => True
  | w :: ws' => p <= w.2 /\ ends_nondecreasing w.2 ws'
  end.

(** The end of the last window, [p] when there is none. *)
Fixpoint last_end (p : Z) (ws : list (Z * Z)) : Z :=
  match ws with
  | [] => p
  | w :: ws' => last_end w.2 ws'
  end.

(** The characters of a list of strings, separators not counted. *)
Definition sum_len (parts : list str) : Z :=
  foldr (fun p acc => len p + acc) 0 parts.

(** ** Boundaries *)

(** The characters after which the chunker prefers to cut. *)
Definition is_sentence_end (c : ascii) : bool :=
  Ascii.eqb c "." || Ascii.eqb c "!" || Ascii.eqb c "?".

(** [text[i]] for an index that is not negative. *)
Definition char_at (s : str) (i : Z) : option ascii := s !! Z.to_nat i.

(** No leading and no trailing whitespace. *)
Definition stripped (s : str) : Prop :=
  lstrip s = s /\ lstrip (reverse s) = reverse s.

(** [chunk] occurs in [text] as a run of consecutive characters. *)
Definition occurs_in (chunk text : str) : Prop :=
  exists before after, text = before ++ chunk ++ after.

(** ** Progress and ranking *)

(** No start inside the text is sent back to itself by the step
    [start = end - overlap]. *)
Definition no_repeated_window (self : DocumentProcessor.t) (text : str) : Prop :=
  forall start, 0 < start < len text ->
    DocumentProcessor.cut_point self text start
      - DocumentProcessor.chunk_overlap self <> start.

(** [x] is not ranked below [y]. *)
Definition not_below {Score : Type} (score_lt : Score -> Score -> bool)
    (x y : @RAGPipeline.Hit Score) : Prop :=
  score_lt (RAGPipeline.score x) (RAGPipeline.score y) = false.

(** Lines 61-65 of rag_pipeline.py: the dictionary of one search result. *)
Definition to_hit {Score : Type} (r : RAGPipeline.Document * Score)
  : @RAGPipeline.Hit Score :=
  RAGPipeline.mkHit (RAGPipeline.page_content r.1)
                    (RAGPipeline.doc_metadata r.1) r.2.

(** ** document_processor.py: reading files *)

Module FileProcessing.

(** [c.lower()] for one character, for code points below 256: the letters
    [A] to [Z], and the capital letters of Latin-1 but the sign at 215. *)
Definition lower_char (c : ascii) : ascii :=
  let n := nat_of_ascii c in
  if ((65 <=? n) && (n <=? 90)
      || (192 <=? n) && (n <=? 222) && negb (n =? 215))%nat
  then ascii_of_nat (n + 32) else c.

(** [s.lower()] *)
Definition lower (s : str) : str := map lower_char s.

(** [s.split(sep)] for a one-character [sep]. *)
Fixpoint split (sep : ascii) (s : str) : list str :=
  match s with
  | [] => [[]]
  | c :: s' =>
      if Ascii.eqb c sep then [] :: split sep s'
      else match split sep s' with
           | seg :: segs => (c :: seg) :: segs
           | [] => [[c]]
           end
  end.

(** Line 20: [name.split('.')[-1].lower()]. *)
Definition file_extension (name : str) : str :=
  lower (List.last (split "." name) []).

(** An uploaded file: its name and the bytes [read()] returns. *)
Record UploadedFile := mkFile { name : str; data : list ascii }.

(** A document as python-docx shows it: the text of every paragraph, and
    for every table its rows of cell texts. *)
Record DocxDocument := mkDocx {
  paragraphs : list str;
  tables : list (list (list str)) }.

(** The libraries: [PyPDF2.PdfReader] with, for every page, what
    [extract_text] does; [docx.Document]; and [bytes.decode] for the two
    encodings that can fail, [None] standing for [UnicodeDecodeError]. *)
Record Libraries := mkLibraries {
  PdfReader : list ascii -> RAGPipeline.result (list (RAGPipeline.result str));
  Document : list ascii -> RAGPipeline.result DocxDocument;
  decode_utf_8 : list ascii -> option str;
  decode_cp1252 : list ascii -> option str }.

Inductive encoding := utf_8 | latin_1 | cp1252.

(** [data.decode(encoding)]; Latin-1 maps every byte to the code point of
    the same number. *)
Definition decode (libs : Libraries) (e : encoding) (bytes : list ascii)
  : option str :=
  match e with
  | utf_8 => decode_utf_8 libs bytes
  | latin_1 => Some bytes
  | cp1252 => decode_cp1252 libs bytes
  end.

(** The dictionary of one chunk, and its metadata. *)
Record Chunk := mkChunk {
  content : str;
  metadata : gmap string RAGPipeline.MetaValue }.

Definition chunk_metadata (source : str) (chunk_id : nat) (file_type : str)
  : gmap string RAGPipeline.MetaValue :=
  {[ "source"%string := RAGPipeline.MStr source;
     "chunk_id"%string := RAGPipeline.MInt (Z.of_nat chunk_id);
     "file_type"%string := RAGPipeline.MStr file_type ]}.

Section Reading.
Variable self : DocumentProcessor.t.
Variable libs : Libraries.

(** Lines 63-70: the loop over the pages; a page whose extraction raises
    is skipped with a warning. *)
Fixpoint pdf_pages_loop (page_num : nat)
    (pages : list (RAGPipeline.result str)) (text : str) : str :=
  match pages with
  | [] => text
  | page :: pages' =>
      match page with
      | RAGPipeline.Ok page_text =>
          if is_nil page_text then pdf_pages_loop (S page_num) pages' text
          else pdf_pages_loop (S page_num) pages'
                 (text ++ RAGPipeline.nl ++ lit "--- Page "
                    ++ RAGPipeline.str_of_nat (page_num + 1) ++ lit " ---"
                    ++ RAGPipeline.nl ++ page_text ++ RAGPipeline.nl)
      | RAGPipeline.Raise _ => pdf_pages_loop (S page_num) pages' text
      end
  end.

Definition _extract_from_pdf (uploaded_file : UploadedFile)
  : RAGPipeline.result str :=
  RAGPipeline.try_except
    (pages ← PdfReader libs (data uploaded_file);
     RAGPipeline.Ok (pdf_pages_loop 0 pages []))
    (fun e => RAGPipeline.Raise
       (RAGPipeline.Exception
          (lit "Error reading PDF: " ++ RAGPipeline.str_of_exn e))).

(** Lines 83-85. *)
Fixpoint paragraphs_loop (ps : list str) (text : str) : str :=
  match ps with
  | [] => text
  | p :: ps' =>
      if is_nil (strip p) then paragraphs_loop ps' text
      else paragraphs_loop ps' (text ++ p ++ RAGPipeline.nl)
  end.

(** Lines 90-92: the cells of one row. *)
Fixpoint cells_loop (cells : list str) (text : str) : str :=
  match cells with
  | [] => text
  | cell :: cells' =>
      if is_nil (strip cell) then cells_loop cells' text
      else cells_loop cells' (text ++ cell ++ lit " ")
  end.

(** Lines 89-93: the rows of one table. *)
Fixpoint rows_loop (rows : list (list str)) (text : str) : str :=
  match rows with
  | [] => text
  | row :: rows' => rows_loop rows' (cells_loop row text ++ RAGPipeline.nl)
  end.

(** Lines 88-93. *)
Fixpoint tables_loop (ts : list (list (list str))) (text : str) : str :=
  match ts with
  | [] => text
  | table :: ts' => tables_loop ts' (rows_loop table text)
  end.

Definition _extract_from_docx (uploaded_file : UploadedFile)
  : RAGPipeline.result str :=
  RAGPipeline.try_except
    (doc ← Document libs (data uploaded_file);
     RAGPipeline.Ok (tables_loop (tables doc)
                       (paragraphs_loop (paragraphs doc) [])))
    (fun e => RAGPipeline.Raise
       (RAGPipeline.Exception
          (lit "Error reading DOCX: " ++ RAGPipeline.str_of_exn e))).

(** Lines 106-114: the encodings are tried in turn. *)
Fixpoint decode_loop (encodings : list encoding) (bytes : list ascii)
  : RAGPipeline.result str :=
  match encodings with
  | [] => RAGPipeline.Raise
            (RAGPipeline.Exception
               (lit "Could not decode text file with any supported encoding"))
  | e :: encodings' =>
      match decode libs e bytes with
      | Some text => RAGPipeline.Ok text
      | None => decode_loop encodings' bytes
      end
  end.

Definition _extract_from_txt (uploaded_file : UploadedFile)
  : RAGPipeline.result str :=
  RAGPipeline.try_except
    (decode_loop [utf_8; latin_1; cp1252] (data uploaded_file))
    (fun e => RAGPipeline.Raise
       (RAGPipeline.Exception
          (lit "Error reading TXT: " ++ RAGPipeline.str_of_exn e))).

(** Lines 22-29: the reader is chosen by the extension. *)
Definition extract_text (uploaded_file : UploadedFile) (extension : str)
  : RAGPipeline.result str :=
  if bool_decide (extension = lit "pdf") then _extract_from_pdf uploaded_file
  else if bool_decide (extension = lit "docx")
       then _extract_from_docx uploaded_file
  else if bool_decide (extension = lit "txt")
       then _extract_from_txt uploaded_file
  else RAGPipeline.Raise
         (RAGPipeline.Exception (lit "Unsupported file type: " ++ extension)).

(** [process_file]; every exception ends in the empty list, [None] is the
    chunking loop out of fuel. *)
Definition process_file (fuel : nat) (uploaded_file : UploadedFile)
  : option (list Chunk) :=
  let extension := file_extension (name uploaded_file) in
  match extract_text uploaded_file extension with
  | RAGPipeline.Raise _ => Some []
  | RAGPipeline.Ok text =>
      if is_nil (strip text) then Some []
      else
        chunks ← DocumentProcessor._split_text_into_chunks self text fuel;
        Some (imap (fun i chunk =>
                      mkChunk chunk
                        (chunk_metadata (name uploaded_file) i extension))
                   chunks)
  end.
End Reading.

End FileProcessing.

(** ** gemini_client.py *)

Module GeminiClient.

(** The client of the API: [client.models.generate_content] with the name
    of the model, the prompt and [max_output_tokens]. It raises, or
    returns a response whose text may be missing ([None]) or empty. *)
Record t := mk {
  model_name : str;
  generate_content : str -> str -> Z -> RAGPipeline.result (option str) }.

Definition apology : str :=
  lit "I apologize, but I wasn't able to generate a response. Please try again.".

(** [generate_response(prompt, max_tokens)] *)
Definition generate_response (self : t) (prompt : str) (max_tokens : Z)
  : RAGPipeline.result str :=
  RAGPipeline.try_except
    (response ← generate_content self (model_name self) prompt max_tokens;
     match response with
     | Some text =>
         if is_nil text then RAGPipeline.Ok apology
         else RAGPipeline.Ok (strip text)
     | None => RAGPipeline.Ok apology
     end)
    (fun e => RAGPipeline.Raise
       (RAGPipeline.Exception
          (lit "Failed to generate response: " ++ RAGPipeline.str_of_exn e))).

(** A message of the conversation. *)
Record Message := mkMessage { role : str; content : str }.

(** Lines 58-60: the loop over the messages. *)
Fixpoint context_loop (msgs : list Message) (conversation_context : str)
  : str :=
  match msgs with
  | [] => conversation_context
  | msg :: msgs' =>
      let role_name :=
        if bool_decide (role msg = lit "user") then lit "Human"
        else lit "Assistant" in
      context_loop msgs'
        (conversation_context ++ role_name ++ lit ": " ++ content msg
           ++ RAGPipeline.nl)
  end.

(** [l[-5:]] *)
Definition last_five {A} (l : list A) : list A := drop (length l - 5) l.

Definition full_prompt (conversation_context current_query : str) : str :=
  lit "Previous conversation:
" ++ conversation_context ++ lit "

Current question: " ++ current_query ++ lit "

Please provide a helpful response that takes into account the conversation history.".

Definition generate_chat_response (self : t)
    (conversation_history : list Message) (current_query : str)
  : RAGPipeline.result str :=
  RAGPipeline.try_except
    (let conversation_context :=
       context_loop (last_five conversation_history) [] in
     generate_response self
       (full_prompt conversation_context current_query) 1000)
    (fun _ => generate_response self current_query 1000).

(** The client as the pipeline calls it: [generate_response(prompt)], with
    the default [max_tokens]. *)
Definition for_pipeline (self : t) : RAGPipeline.GeminiClient :=
  RAGPipeline.mkClient (fun prompt => generate_response self prompt 1000).

End GeminiClient.

(** ** vector_store.py *)

Module VectorStoreManager.
Section Manager.
Context {Score : Type}.

(** [FAISS.from_documents] with the embedding model of the manager. *)
Record t := mk {
  from_documents :
    list RAGPipeline.Document
    -> RAGPipeline.result (@RAGPipeline.VectorStore Score) }.

Definition to_document (chunk : FileProcessing.Chunk) : RAGPipeline.Document :=
  RAGPipeline.mkDocument (FileProcessing.content chunk)
                         (FileProcessing.metadata chunk).

Definition create_vector_store (self : t)
    (document_chunks : list FileProcessing.Chunk)
  : RAGPipeline.result (@RAGPipeline.VectorStore Score) :=
  RAGPipeline.try_except
    (let documents := map to_document document_chunks in
     from_documents self documents)
    (fun e => RAGPipeline.Raise
       (RAGPipeline.Exception
          (lit "Failed to create vector store: " ++ RAGPipeline.str_of_exn e))).

End Manager.
End VectorStoreManager.

(** ** app.py *)

Module App.
Section Session.
Context {Score : Type} (score_lt : Score -> Score -> bool).

(** A message of the chat; only those of the assistant that answer a query
    have sources. *)
Record ChatMessage := mkChatMessage {
  role : str;
  content : str;
  sources : option (list (@RAGPipeline.Hit Score)) }.

(** [st.session_state] *)
Record SessionState := mkState {
  messages : list ChatMessage;
  vector_store : option (@RAGPipeline.VectorStore Score);
  rag_pipeline : option (@RAGPipeline.t Score);
  documents_processed : bool }.

(** Lines 26-33. *)
Definition initial_state : SessionState := mkState [] None None false.

(** What the handlers find around them: the processor and its libraries,
    the manager, and what [get_gemini_client()] returns. *)
Record Components := mkComponents {
  doc_processor : DocumentProcessor.t;
  libraries : FileProcessing.Libraries;
  vector_store_manager : @VectorStoreManager.t Score;
  get_gemini_client : option GeminiClient.t }.

Section Handlers.
Variable env : Components.

(** Lines 68-72: the chunks of all files, in the order of the files;
    [None] when a chunking loop runs out of fuel. *)
Fixpoint files_loop (fuel : nat) (uploaded_files : list FileProcessing.UploadedFile)
    (all_chunks : list FileProcessing.Chunk)
  : option (list FileProcessing.Chunk) :=
  match uploaded_files with
  | [] => Some all_chunks
  | uploaded_file :: files' =>
      chunks ← FileProcessing.process_file (doc_processor env) (libraries env)
                 fuel uploaded_file;
      files_loop fuel files' (all_chunks ++ chunks)
  end.

(** [process_uploaded_files]; an exception of [create_vector_store] is not
    caught. *)
Definition process_uploaded_files (fuel : nat) (state : SessionState)
    (uploaded_files : list FileProcessing.UploadedFile)
  : option (RAGPipeline.result SessionState) :=
  match get_gemini_client env with
  | None => Some (RAGPipeline.Ok state)
  | Some gemini_client =>
      all_chunks ← files_loop fuel uploaded_files [];
      if is_nil all_chunks then Some (RAGPipeline.Ok state)
      else
        Some (new_store ← VectorStoreManager.create_vector_store
                             (vector_store_manager env) all_chunks;
              RAGPipeline.Ok
                (mkState (messages state) (Some new_store)
                   (Some (RAGPipeline.mk new_store
                            (GeminiClient.for_pipeline gemini_client) 4000))
                   true))
  end.

(** Lines 142-178: a question typed into the chat. *)
Definition chat_input (state : SessionState) (prompt : str) : SessionState :=
  if negb (documents_processed state) then state
  else
    match rag_pipeline state with
    | None => state
    | Some pipeline =>
        let with_question :=
          messages state ++ [mkChatMessage (lit "user") prompt None] in
        match RAGPipeline.query score_lt pipeline prompt 4 with
        | RAGPipeline.Ok response =>
            mkState
              (with_question ++
                 [mkChatMessage (lit "assistant") (RAGPipeline.answer response)
                    (Some (RAGPipeline.sources response))])
              (vector_store state) (rag_pipeline state)
              (documents_processed state)
        | RAGPipeline.Raise e =>
            mkState
              (with_question ++
                 [mkChatMessage (lit "assistant")
                    (lit "Error generating response: "
                       ++ RAGPipeline.str_of_exn e) None])
              (vector_store state) (rag_pipeline state)
              (documents_processed state)
        end
    end.

(** Lines 192-194. *)
Definition clear_chat_history (state : SessionState) : SessionState :=
  mkState [] (vector_store state) (rag_pipeline state)
    (documents_processed state).

(** Lines 195-200. *)
Definition reset_all (state : SessionState) : SessionState := initial_state.

(** What the user can do. *)
Inductive action :=
| ProcessDocuments (fuel : nat) (files : list FileProcessing.UploadedFile)
| ChatInput (prompt : str)
| ClearChatHistory
| ResetAll.

(** The state after an action. An exception leaves the session as it
    was; a chunking loop that never leaves gives no state. *)
Definition run (state : SessionState) (a : action) : option SessionState :=
  match a with
  | ProcessDocuments fuel files =>
      match process_uploaded_files fuel state files with
      | Some (RAGPipeline.Ok state') => Some state'
      | Some (RAGPipeline.Raise _) => Some state
      | None => None
      end
  | ChatInput prompt => Some (chat_input state prompt)
  | ClearChatHistory => Some (clear_chat_history state)
  | ResetAll => Some (reset_all state)
  end.

(** The states the session can be in. *)
Inductive reachable : SessionState -> Prop :=
| reachable_initial : reachable initial_state
| reachable_run state a state' :
    reachable state -> run state a = Some state' -> reachable state'.
End Handlers.
End Session.
End App.


(** The session is ready for questions or empty, nothing in between. *)
Definition consistent {Score : Type} (state : @App.SessionState Score) : Prop :=
  if App.documents_processed state then
    exists store pipeline,
      App.vector_store state = Some store /\
      App.rag_pipeline state = Some pipeline /\
      RAGPipeline.vector_store pipeline = store /\
      RAGPipeline.max_context_length pipeline = 4000
  else App.vector_store state = None /\ App.rag_pipeline state = None.

(** ** Sample inputs *)

Definition hello : str :=
  lit "Hello world. This is a test sentence that continues on.".

Definition stuck_text : str := lit "aaaa.aaaaa".

Definition stuck_text_defaults : str :=
  replicate 999 "a"%char ++ "."%char :: replicate 801 "a"%char.

Definition words : str := lit "ab cd ef gh".

(** Two stored chunks of a file [x], found with scores 1 and 2; a
    generator that answers, one that fails. *)
Definition meta_x : gmap string RAGPipeline.MetaValue :=
  {[ "source"%string := RAGPipeline.MStr (lit "x") ]}.

Definition hit_a : @RAGPipeline.Hit Z := RAGPipeline.mkHit (lit "a") meta_x 2.
Definition hit_b : @RAGPipeline.Hit Z := RAGPipeline.mkHit (lit "b") meta_x 1.

Definition store_ab : @RAGPipeline.VectorStore Z :=
  RAGPipeline.mkStore
    (fun _ _ => RAGPipeline.Ok
       [(RAGPipeline.mkDocument (lit "b") meta_x, 1);
        (RAGPipeline.mkDocument (lit "a") meta_x, 2)]).

Definition answering_client : RAGPipeline.GeminiClient :=
  RAGPipeline.mkClient (fun _ => RAGPipeline.Ok (lit "An answer.")).

Definition failing_client : RAGPipeline.GeminiClient :=
  RAGPipeline.mkClient
    (fun _ => RAGPipeline.Raise
       (RAGPipeline.Exception (lit "Failed to generate response: quota"))).

Definition pipeline (max_length : Z) : @RAGPipeline.t Z :=
  RAGPipeline.mk store_ab answering_client max_length.

Definition failing_pipeline : @RAGPipeline.t Z :=
  RAGPipeline.mk store_ab failing_client 4000.

(** A hit with 600 characters of content. *)
Definition long_hit : @RAGPipeline.Hit Z :=
  RAGPipeline.mkHit (replicate 600 "c"%char) meta_x 3.

(** A text whose first sentence is shorter than the overlap, and one
    without any boundary. *)
Definition short_sentence_text : str := lit "Hi. aaaaaaaaaaaaaaaaaaaa".

Definition letters : str := lit "abcdefghijkl".

(** A store in which nothing is found. *)
Definition empty_store : @RAGPipeline.VectorStore Z :=
  RAGPipeline.mkStore (fun _ _ => RAGPipeline.Ok []).

(** Files, and libraries that read a PDF of two pages without text and a
    DOCX with a blank paragraph and a table of blank cells. *)
Definition text_file : FileProcessing.UploadedFile :=
  FileProcessing.mkFile (lit "notes.TXT") (lit "  hello  ").

Definition markdown_file : FileProcessing.UploadedFile :=
  FileProcessing.mkFile (lit "notes.md") (lit "# hello").

Definition scanned_pdf : FileProcessing.UploadedFile :=
  FileProcessing.mkFile (lit "scan.pdf") (lit "%PDF").

Definition blank_docx : FileProcessing.UploadedFile :=
  FileProcessing.mkFile (lit "empty.docx") (lit "PK").

Definition sample_libraries : FileProcessing.Libraries :=
  FileProcessing.mkLibraries
    (fun _ => RAGPipeline.Ok
       [RAGPipeline.Ok [];
        RAGPipeline.Raise (RAGPipeline.Exception (lit "bad page"))])
    (fun _ => RAGPipeline.Ok
       (FileProcessing.mkDocx [lit " "] [[[lit " "; []]; []]]))
    (fun _ => None) (fun _ => None).

(** A client of the API that answers with whitespace around the text, and
    a conversation of six messages. *)
Definition sample_client : GeminiClient.t :=
  GeminiClient.mk (lit "gemini-2.5-flash")
    (fun _ _ _ => RAGPipeline.Ok (Some (lit " An answer. "))).

Definition gemini_pipeline : @RAGPipeline.t Z :=
  RAGPipeline.mk store_ab (GeminiClient.for_pipeline sample_client) 4000.

Definition recent_messages : list GeminiClient.Message :=
  [GeminiClient.mkMessage (lit "assistant") (lit "a1");
   GeminiClient.mkMessage (lit "user") (lit "q2");
   GeminiClient.mkMessage (lit "assistant") (lit "a2");
   GeminiClient.mkMessage (lit "user") (lit "q3");
   GeminiClient.mkMessage (lit "assistant") (lit "a3")].

Definition older_messages : list GeminiClient.Message :=
  [GeminiClient.mkMessage (lit "user") (lit "q1")].

(** The components of a session whose index is [store_ab]. *)
Definition sample_components : @App.Components Z :=
  App.mkComponents DocumentProcessor.with_defaults sample_libraries
    (VectorStoreManager.mk (fun _ => RAGPipeline.Ok store_ab))
    (Some sample_client).

(** The session after a text file was processed. *)
Definition ready_state : @App.SessionState Z :=
  App.mkState [] (Some store_ab)
    (Some (RAGPipeline.mk store_ab
             (GeminiClient.for_pipeline sample_client) 4000)) true.

(** * Properties of the chunker *)

Section StringFacts.
Implicit Types (s : str) (c : ascii).

Lemma len_nonneg s : 0 <= len s.
Proof. unfold len. lia. Qed.

Lemma length_lstrip s : (length (lstrip s) <= length s)%nat.
Proof.
  induction s as [|c s IH]; simpl; [lia|].
  destruct (isspace c); simpl; lia.
Qed.

Lemma len_strip s : len (strip s) <= len s.
Proof.
  unfold len, strip, rstrip.
  rewrite length_reverse.
  pose proof (length_lstrip (reverse (lstrip s))) as H1.
  rewrite length_reverse in H1.
  pose proof (length_lstrip s). lia.
Qed.

(** Between bounds that are not negative a slice is a [take] of a
    [drop]. *)
Lemma slice_nonneg s a b :
  0 <= a -> 0 <= b ->
  slice s a b = take (Z.to_nat b - Z.to_nat a) (drop (Z.to_nat a) s).
Proof.
  intros Ha Hb. unfold slice, clamp, len.
  destruct (Z.ltb_spec a 0), (Z.ltb_spec b 0); try lia.
  destruct (Z.le_gt_cases (Z.of_nat (length s)) a).
  - rewrite !drop_ge by lia. by rewrite !take_nil.
  - rewrite (Z.min_l a) by lia.
    destruct (Z.le_gt_cases b (Z.of_nat (length s))).
    + rewrite Z.min_l by lia. f_equal. lia.
    + rewrite Z.min_r by lia.
      rewrite !take_ge; [done | rewrite length_drop; lia ..].
Qed.

Lemma len_slice s a b : 0 <= a -> a <= b -> len (slice s a b) <= b - a.
Proof.
  intros Ha Hb. rewrite slice_nonneg by lia.
  unfold len. rewrite length_take. lia.
Qed.

Lemma last_index_lt c s k : last_index c s = Some k -> (k < length s)%nat.
Proof.
  revert k. induction s as [|x s IH]; intros k; simpl; [done|].
  destruct (last_index c s) as [j|].
  - intros [= <-]. specialize (IH j eq_refl). lia.
  - destruct (Ascii.eqb x c); [intros [= <-]; lia | done].
Qed.

(** What [rfind] answers lies in the range it searched, or is [-1]. *)
Lemma rfind_range c s start stop :
  0 <= start -> start <= stop -> stop <= len s ->
  rfind c s start stop = -1 \/
  start <= rfind c s start stop < stop.
Proof.
  intros H0 H1 H2. unfold rfind.
  destruct (last_index c (slice s start stop)) as [k|] eqn:Hk; [right|by left].
  apply last_index_lt in Hk.
  pose proof (len_slice s start stop H0 H1) as Hl. unfold len in Hl.
  unfold clamp. destruct (Z.ltb_spec start 0); lia.
Qed.
Lemma last_index_lookup c s k : last_index c s = Some k -> s !! k = Some c.
Proof.
  revert k. induction s as [|x s IH]; intros k; simpl; [done|].
  destruct (last_index c s) as [j|].
  - intros [= <-]. by apply IH.
  - destruct (Ascii.eqb_spec x c) as [->|]; [by intros [= <-] | done].
Qed.

Lemma last_index_max c s q :
  s !! q = Some c -> exists k, last_index c s = Some k /\ (q <= k)%nat.
Proof.
  revert q. induction s as [|x s IH]; intros q; simpl; [done|].
  destruct q as [|q]; simpl.
  - intros [= ->]. destruct (last_index c s) as [j|].
    + exists (S j). split; [done | lia].
    + rewrite Ascii.eqb_refl. by exists O.
  - intros Hq. destruct (IH q Hq) as (k & -> & Hk).
    exists (S k). split; [done | lia].
Qed.

Lemma slice_lookup s a b (k : nat) :
  0 <= a -> a <= b -> Z.of_nat k < b - a ->
  slice s a b !! k = s !! (Z.to_nat a + k)%nat.
Proof.
  intros Ha Hb Hk. rewrite slice_nonneg by lia.
  rewrite lookup_take_lt by lia. apply lookup_drop.
Qed.

(** What [rfind] finds in one range and lies in another is found there
    too, or something after it. *)
Lemma rfind_window c s a b a' b' :
  0 <= a -> a <= b -> b <= len s ->
  0 <= a' -> a' <= b' -> b' <= len s ->
  a <= rfind c s a b -> a' <= rfind c s a b < b' ->
  rfind c s a b <= rfind c s a' b'.
Proof.
  intros Ha Hb Hl Ha' Hb' Hl' Hfound Hin. unfold rfind in *.
  assert (Hca : clamp (len s) a = a)
    by (unfold clamp; destruct (Z.ltb_spec a 0); lia).
  assert (Hca' : clamp (len s) a' = a')
    by (unfold clamp; destruct (Z.ltb_spec a' 0); lia).
  rewrite Hca, Hca' in *.
  destruct (last_index c (slice s a b)) as [k|] eqn:Hk; [|lia].
  pose proof (last_index_lt _ _ _ Hk) as Hlt.
  pose proof (len_slice s a b Ha Hb) as Hls. unfold len in Hls.
  apply last_index_lookup in Hk.
  rewrite slice_lookup in Hk by lia.
  assert (Hq : slice s a' b' !! Z.to_nat (a + Z.of_nat k - a') = Some c).
  { rewrite slice_lookup by lia. rewrite <- Hk. f_equal. lia. }
  apply last_index_max in Hq as (k' & -> & Hk'). lia.
Qed.
(** Two facts on the largest of three positions, for [sentence_end]. *)
Lemma max3_range (a b x y z : Z) :
  (x = -1 \/ a <= x < b) -> (y = -1 \/ a <= y < b) ->
  (z = -1 \/ a <= z < b) ->
  Z.max (Z.max x y) z = -1 \/ a <= Z.max (Z.max x y) z < b.
Proof. lia. Qed.

Lemma max3_window (a a' b' x y z x' y' z' : Z) :
  (a <= x -> a' <= x < b' -> x <= x') ->
  (a <= y -> a' <= y < b' -> y <= y') ->
  (a <= z -> a' <= z < b' -> z <= z') ->
  a <= Z.max (Z.max x y) z ->
  a' <= Z.max (Z.max x y) z < b' ->
  Z.max (Z.max x y) z <= Z.max (Z.max x' y') z'.
Proof.
  intros Hx Hy Hz Hm Hin.
  assert (Hc : Z.max (Z.max x y) z = x \/ Z.max (Z.max x y) z = y
               \/ Z.max (Z.max x y) z = z) by lia.
  destruct Hc as [E|[E|E]]; rewrite E in *.
  - assert (x <= x') by (apply Hx; lia). lia.
  - assert (y <= y') by (apply Hy; lia). lia.
  - assert (z <= z') by (apply Hz; lia). lia.
Qed.
End StringFacts.

Section ChunkerFacts.
Import DocumentProcessor.
Variable self : DocumentProcessor.t.
Variable text : str.
Hypothesis size_pos : 0 < chunk_size self.

(** The boundary search never moves the end of a window past
    [start + chunk_size], nor back to [start]. *)
Lemma cut_point_range start :
  0 <= start ->
  start < cut_point self text start <= start + chunk_size self.
Proof.
  intros Hs. unfold cut_point.
  destruct (Z.ltb_spec (start + chunk_size self) (len text)) as [Hlt|]; [|lia].
  set (e := start + chunk_size self) in *.
  assert (Hr : forall c, rfind c text start e = -1 \/
                         start <= rfind c text start e < e)
    by (intros c; apply rfind_range; lia).
  destruct (Hr "."%char), (Hr "!"%char), (Hr "?"%char), (Hr " "%char);
    repeat match goal with
           | |- context [?a >? ?b] => destruct (Z.gtb_spec a b)
           end; lia.
Qed.

(** A window that starts no earlier than the one before it ends no
    earlier either. *)
Lemma cut_point_mono start :
  0 <= start -> 0 <= chunk_overlap self < chunk_size self ->
  start <= cut_point self text start - chunk_overlap self ->
  cut_point self text start
  <= cut_point self text (cut_point self text start - chunk_overlap self).
Proof.
  intros Hs Hov.
  pose proof (cut_point_range start Hs) as He.
  remember (cut_point self text start) as e eqn:Hcut.
  set (s' := e - chunk_overlap self). intros Hs'.
  pose proof (cut_point_range s' ltac:(lia)) as He'.
  unfold cut_point in Hcut |- *.
  destruct (Z.ltb_spec (s' + chunk_size self) (len text)) as [Hin'|]; [|lia].
  destruct (Z.ltb_spec (start + chunk_size self) (len text)) as [Hin|]; [|lia].
  set (b := start + chunk_size self) in *.
  set (b' := s' + chunk_size self) in *.
  assert (Hr : forall c, rfind c text start b = -1 \/
                         start <= rfind c text start b < b)
    by (intros c; apply rfind_range; lia).
  assert (Hr' : forall c, rfind c text s' b' = -1 \/
                          s' <= rfind c text s' b' < b')
    by (intros c; apply rfind_range; lia).
  assert (Hw : forall c, start <= rfind c text start b ->
                         s' <= rfind c text start b < b' ->
                         rfind c text start b <= rfind c text s' b')
    by (intros c; apply rfind_window; lia).
  assert (Hw' : forall c, s' <= rfind c text s' b' ->
                          start <= rfind c text s' b' < b ->
                          rfind c text s' b' <= rfind c text start b)
    by (intros c; apply rfind_window; lia).
  assert (Hse := max3_range start b _ _ _
                  (Hr "."%char) (Hr "!"%char) (Hr "?"%char)).
  assert (Hse' := max3_range s' b' _ _ _
                   (Hr' "."%char) (Hr' "!"%char) (Hr' "?"%char)).
  assert (Hsw := max3_window start s' b' _ _ _ _ _ _
                  (Hw "."%char) (Hw "!"%char) (Hw "?"%char)).
  assert (Hsw' := max3_window s' start b _ _ _ _ _ _
                   (Hw' "."%char) (Hw' "!"%char) (Hw' "?"%char)).
  set (se := Z.max (Z.max (rfind "." text start b) (rfind "!" text start b))
                   (rfind "?" text start b)) in *.
  set (se' := Z.max (Z.max (rfind "." text s' b') (rfind "!" text s' b'))
                    (rfind "?" text s' b')) in *.
  pose proof (Hr " "%char); pose proof (Hr' " "%char).
  pose proof (Hw " "%char); pose proof (Hw' " "%char).
  clearbody se se'. clear Hr Hr' Hw Hw'.
  set (ls := rfind " " text start b) in *.
  set (ls' := rfind " " text s' b') in *.
  clearbody ls ls'.
  destruct (Z.gtb_spec se start), (Z.gtb_spec ls start),
    (Z.gtb_spec se' s'), (Z.gtb_spec ls' s'); lia.
Qed.

Lemma append_chunk_bound chunks start end_ :
  0 <= start -> start <= end_ <= start + chunk_size self ->
  Forall (fun c => len c <= chunk_size self) chunks ->
  Forall (fun c => len c <= chunk_size self)
         (append_chunk text chunks start end_).
Proof.
  intros Hs He Hc. unfold append_chunk.
  pose proof (len_strip (slice text start end_)) as H1.
  pose proof (len_slice text start end_ Hs (proj1 He)) as H2.
  destruct (strip (slice text start end_)) eqn:E; [done|].
  apply Forall_app; split; [done|].
  apply Forall_singleton. lia.
Qed.

Lemma split_loop_bound fuel : forall start chunks result,
  0 <= start ->
  Forall (fun c => len c <= chunk_size self) chunks ->
  split_loop self text fuel start chunks = Some result ->
  Forall (fun c => len c <= chunk_size self) result.
Proof.
  induction fuel as [|fuel IH]; intros start chunks result Hs Hc; simpl;
    [done|].
  pose proof (cut_point_range start Hs) as Hcut.
  destruct (start <? len text); [|by intros [= <-]].
  assert (Forall (fun c => len c <= chunk_size self)
            (append_chunk text chunks start (cut_point self text start)))
    by (apply append_chunk_bound; [lia | lia | done]).
  destruct (Z.leb_spec (cut_point self text start - chunk_overlap self) 0).
  - by intros [= <-].
  - apply IH; [lia | done].
Qed.
(** Without overlap every window starts where the one before it ended,
    and the loop leaves after at most [len text] iterations. *)
Lemma split_loop_returns_without_overlap fuel : forall start chunks,
  chunk_overlap self = 0 -> 0 <= start ->
  Z.max 0 (len text - start) < Z.of_nat fuel ->
  exists result, split_loop self text fuel start chunks = Some result.
Proof.
  induction fuel as [|fuel IH]; intros start chunks Hov Hs Hfuel; simpl;
    [lia|].
  pose proof (cut_point_range start Hs) as Hcut.
  destruct (Z.ltb_spec start (len text)); [|eauto].
  destruct (Z.leb_spec (cut_point self text start - chunk_overlap self) 0);
    [eauto|].
  apply IH; [done | lia | lia].
Qed.
End ChunkerFacts.

Section ChunkerClaims.
Import DocumentProcessor.

(** C9. With [chunk_size > 0], every chunk the chunker returns has at
    most [chunk_size] characters, and the boundary search puts the end of
    a window after its start and never past [start + chunk_size]. The
    bound needs no assumption on the overlap. *)
Theorem chunks_within_chunk_size self text fuel chunks :
  0 < chunk_size self ->
  _split_text_into_chunks self text fuel = Some chunks ->
  Forall (fun c => len c <= chunk_size self) chunks /\
  (forall start, 0 <= start ->
     start < cut_point self text start <= start + chunk_size self).
Proof.
  intros Hpos Hrun. split; [|intros; by apply cut_point_range].
  unfold _split_text_into_chunks in Hrun.
  destruct (Z.leb_spec (len text) (chunk_size self)).
  - injection Hrun as <-. by apply Forall_singleton.
  - eapply split_loop_bound; [done | | | exact Hrun]; [lia | constructor].
Qed.

(** The four chunks of the sample sentence. *)
Lemma chunks_within_chunk_size_witness :
  _split_text_into_chunks (mk 20 1) hello 10 =
    Some [lit "Hello world."; lit ". This is a test";
          lit "t sentence that"; lit "t continues on."] /\
  Forall (fun c => len c <= 20)
    [lit "Hello world."; lit ". This is a test";
     lit "t sentence that"; lit "t continues on."].
Proof.
  split; [vm_compute; reflexivity|].
  apply (chunks_within_chunk_size (mk 20 1) hello 10); simpl;
    [lia | vm_compute; reflexivity].
Defined.

(** *** A window that does not advance *)

(** A sentence end close behind [start] sends the next window back to
    where this one began: with [chunk_size = 5] and [chunk_overlap = 2]
    the window at 3 of ["aaaa.aaaaa"] is cut after the full stop at 4,
    and [5 - 2] is 3 again. *)

Lemma stuck_step fuel chunks :
  split_loop (mk 5 2) stuck_text (S fuel) 3 chunks =
  split_loop (mk 5 2) stuck_text fuel 3 (chunks ++ [lit "a."]).
Proof. reflexivity. Qed.

Lemma stuck_forever fuel : forall chunks,
  split_loop (mk 5 2) stuck_text fuel 3 chunks = None.
Proof.
  induction fuel as [|fuel IH]; intros chunks; [reflexivity|].
  rewrite stuck_step. apply IH.
Qed.

(** C4. The loop does not always end: for [chunk_size = 5],
    [chunk_overlap = 2] (so [chunk_size > 0] and
    [0 <= overlap < chunk_size]) and the text ["aaaa.aaaaa"], neither
    guard is ever reached, whatever the number of iterations allowed. *)
Theorem split_loop_can_run_forever :
  forall fuel,
    _split_text_into_chunks (mk 5 2) stuck_text fuel = None.
Proof.
  intros [|fuel]; [reflexivity|].
  change (split_loop (mk 5 2) stuck_text fuel 3 [lit "aaaa."] = None).
  apply stuck_forever.
Qed.

(** The same with the default [chunk_size = 1000], [chunk_overlap = 200]:
    a full stop at index 999 and none in the 801 characters after it. *)

Lemma stuck_forever_defaults fuel : forall chunks,
  split_loop with_defaults stuck_text_defaults fuel 800 chunks = None.
Proof.
  assert (Hcut : cut_point with_defaults stuck_text_defaults 800 = 1000)
    by (vm_compute; reflexivity).
  assert (Hlen : len stuck_text_defaults = 1801) by (vm_compute; reflexivity).
  induction fuel as [|fuel IH]; intros chunks; [reflexivity|].
  cbn [split_loop]. rewrite Hcut, Hlen. apply IH.
Qed.

Lemma split_loop_can_run_forever_defaults :
  forall fuel,
    _split_text_into_chunks with_defaults stuck_text_defaults fuel = None.
Proof.
  assert (Hcut : cut_point with_defaults stuck_text_defaults 0 = 1000)
    by (vm_compute; reflexivity).
  assert (Hlen : len stuck_text_defaults = 1801) by (vm_compute; reflexivity).
  intros [|fuel]; [vm_compute; reflexivity|].
  unfold _split_text_into_chunks. rewrite Hlen.
  cbn [split_loop chunk_size chunk_overlap with_defaults Z.leb Z.compare
       Pos.compare Pos.compare_cont].
  rewrite Hcut, Hlen. apply stuck_forever_defaults.
Qed.

(** *** The short-text path *)

(** C3. A text no longer than [chunk_size] comes back as it is, neither
    stripped nor dropped when blank: [" a "] is returned with its spaces,
    a blank text and the empty text are returned as one chunk each. *)
Theorem short_text_is_returned_unstripped :
  forall fuel,
    _split_text_into_chunks with_defaults (lit " a ") fuel = Some [lit " a "]
    /\ strip (lit " a ") = lit "a"
    /\ _split_text_into_chunks with_defaults (lit "   ") fuel
       = Some [lit "   "]
    /\ _split_text_into_chunks with_defaults [] fuel = Some [[]].
Proof. intros fuel. repeat split. Qed.
End ChunkerClaims.

(** * Windows of the chunker *)

Section SliceFacts.
Implicit Types (s : str).

Lemma slice_app s a b c :
  0 <= a -> a <= b -> b <= c -> slice s a b ++ slice s b c = slice s a c.
Proof.
  intros Ha Hb Hc. rewrite !slice_nonneg by lia.
  replace (drop (Z.to_nat b) s)
    with (drop (Z.to_nat b - Z.to_nat a) (drop (Z.to_nat a) s))
    by (rewrite drop_drop; f_equal; lia).
  rewrite take_take_drop. f_equal. lia.
Qed.

Lemma drop_slice s overlap a b :
  0 <= overlap -> 0 <= a -> 0 <= b ->
  drop (Z.to_nat overlap) (slice s a b) = slice s (a + overlap) b.
Proof.
  intros Ho Ha Hb. rewrite !slice_nonneg by lia.
  replace (drop (Z.to_nat (a + overlap)) s)
    with (drop (Z.to_nat overlap) (drop (Z.to_nat a) s))
    by (rewrite drop_drop; f_equal; lia).
  rewrite (take_drop_commute (drop (Z.to_nat a) s)).
  destruct (Z.le_gt_cases (a + overlap) b).
  - do 2 f_equal. lia.
  - replace (Z.to_nat b - Z.to_nat (a + overlap))%nat with O by lia.
    rewrite Nat.add_0_r.
    rewrite !drop_ge; [done | rewrite length_take; lia ..].
Qed.

Lemma slice_all s b : len s <= b -> slice s 0 b = s.
Proof.
  intros Hb. pose proof (len_nonneg s). rewrite slice_nonneg by lia.
  unfold len in *. change (Z.to_nat 0) with O.
  rewrite drop_0, take_ge; [done | lia].
Qed.
End SliceFacts.

Section WindowFacts.
Import DocumentProcessor.
Variable self : DocumentProcessor.t.
Variable text : str.

Let window_text (w : Z * Z) : str := slice text w.1 w.2.
Let window_chunk (w : Z * Z) : str := strip (slice text w.1 w.2).

Lemma append_chunk_alt chunks start end_ :
  append_chunk text chunks start end_ =
  chunks ++ nonempty_chunks [strip (slice text start end_)].
Proof.
  unfold append_chunk, nonempty_chunks.
  destruct (strip (slice text start end_)); simpl; [by rewrite app_nil_r|done].
Qed.

Lemma nonempty_chunks_app l1 l2 :
  nonempty_chunks (l1 ++ l2) = nonempty_chunks l1 ++ nonempty_chunks l2.
Proof. apply List.filter_app. Qed.

Lemma split_windows_acc fuel : forall start ws,
  split_windows self text fuel start ws =
  (fun ws' => ws ++ ws') <$> split_windows self text fuel start [].
Proof.
  induction fuel as [|fuel IH]; intros start ws; simpl; [done|].
  destruct (start <? len text); [|simpl; by rewrite app_nil_r].
  destruct (_ <=? 0); [done|].
  rewrite IH. rewrite (IH _ [_]).
  destruct (split_windows self text fuel _ []); simpl; [|done].
  by rewrite <- app_assoc.
Qed.

(** The chunks are the stripped windows that are not empty. *)
Lemma split_loop_windows fuel : forall start chunks,
  split_loop self text fuel start chunks =
  (fun ws => chunks ++ nonempty_chunks (map window_chunk ws))
    <$> split_windows self text fuel start [].
Proof.
  induction fuel as [|fuel IH]; intros start chunks; simpl; [done|].
  destruct (start <? len text); [|simpl; by rewrite app_nil_r].
  rewrite append_chunk_alt.
  destruct (_ <=? 0); [done|].
  rewrite IH, (split_windows_acc _ _ [_]).
  destruct (split_windows self text fuel _ []) as [ws|]; [|done].
  cbn [fmap option_fmap option_map]. f_equal.
  rewrite <- app_assoc. f_equal.
  by rewrite <- nonempty_chunks_app.
Qed.

Lemma split_windows_chained fuel : forall start ws,
  0 < chunk_size self -> 0 <= start ->
  split_windows self text fuel start [] = Some ws ->
  chained (chunk_overlap self) start ws /\
  Forall (fun w => 0 <= w.1 < w.2 /\ w.2 <= w.1 + chunk_size self) ws.
Proof.
  induction fuel as [|fuel IH]; intros start ws Hpos Hs; simpl; [done|].
  pose proof (cut_point_range self text Hpos start Hs) as Hcut.
  destruct (start <? len text); [|intros [= <-]; by split].
  destruct (Z.leb_spec (cut_point self text start - chunk_overlap self) 0).
  - intros [= <-]. simpl. split; [done|]. apply Forall_singleton. simpl. lia.
  - rewrite split_windows_acc.
    destruct (split_windows self text fuel _ []) as [ws'|] eqn:E; [|done].
    intros [= <-]. apply IH in E as [Hc Hf]; [|done|lia].
    simpl. split; [done|]. constructor; [simpl; lia | done].
Qed.

(** The ends of the windows never go back. *)
Lemma split_windows_ends fuel : forall prev start ws,
  0 < chunk_size self ->
  0 <= chunk_overlap self < chunk_size self ->
  0 <= prev -> prev <= start ->
  start = cut_point self text prev - chunk_overlap self ->
  split_windows self text fuel start [] = Some ws ->
  ends_nondecreasing (cut_point self text prev) ws.
Proof.
  induction fuel as [|fuel IH]; intros prev start ws Hpos Hov Hp Hps Hst;
    simpl; [done|].
  assert (Hmono : cut_point self text prev <= cut_point self text start)
    by (rewrite Hst; apply cut_point_mono; [done | done | done | lia]).
  destruct (start <? len text); [|by intros [= <-]].
  destruct (Z.leb_spec (cut_point self text start - chunk_overlap self) 0).
  - intros [= <-]. by simpl.
  - rewrite split_windows_acc.
    destruct (split_windows self text fuel _ []) as [ws'|] eqn:E; [|done].
    intros [= <-]. simpl. split; [done|].
    eapply (IH start); [done | done | lia | | reflexivity | exact E].
    lia.
Qed.

Lemma split_windows_ends_0 fuel ws :
  0 < chunk_size self ->
  0 <= chunk_overlap self < chunk_size self ->
  split_windows self text fuel 0 [] = Some ws ->
  ends_nondecreasing 0 ws.
Proof.
  intros Hpos Hov. destruct fuel as [|fuel]; simpl; [done|].
  pose proof (cut_point_range self text Hpos 0 (Z.le_refl 0)) as Hcut.
  destruct (0 <? len text); [|by intros [= <-]].
  destruct (Z.leb_spec (cut_point self text 0 - chunk_overlap self) 0).
  - intros [= <-]. simpl. split; [lia | done].
  - rewrite split_windows_acc.
    destruct (split_windows self text fuel _ []) as [ws'|] eqn:E; [|done].
    intros [= <-]. simpl. split; [lia|].
    eapply (split_windows_ends fuel 0);
      [done | done | lia | | reflexivity | exact E].
    lia.
Qed.

Lemma last_end_ge ws : forall p, ends_nondecreasing p ws -> p <= last_end p ws.
Proof.
  induction ws as [|w ws IH]; intros p; simpl; [lia|].
  intros [H1 H2]. specialize (IH _ H2). lia.
Qed.

(** Without their first [overlap] characters, chained windows whose ends
    do not decrease follow one another in the text. *)
Lemma windows_concat overlap ws : forall p,
  0 <= overlap ->
  chained overlap (p - overlap) ws ->
  ends_nondecreasing p ws ->
  Forall (fun w => 0 <= w.1 < w.2) ws ->
  concat (map (fun w => drop (Z.to_nat overlap) (window_text w)) ws)
  = slice text p (last_end p ws).
Proof.
  induction ws as [|[s e] ws IH]; intros p Ho; simpl.
  - intros _ _ _. unfold slice. by rewrite Z.sub_diag.
  - intros [-> Hc] [Hpe Hn] Hf.
    apply Forall_cons in Hf as [Hw Hf]. simpl in Hw.
    unfold window_text at 1. simpl.
    rewrite drop_slice by lia.
    replace (p - overlap + overlap) with p by lia.
    rewrite (IH e Ho Hc Hn Hf).
    apply slice_app; [lia | done | by apply last_end_ge].
Qed.
End WindowFacts.

Section CoverageClaims.
Import DocumentProcessor.

(** C5, as the code has it. For a text longer than [chunk_size], when the
    loop returns, the chunks are, in order, the stripped contents of the
    windows [text[s:e]] it visited, those empty after stripping left out.
    The first window starts at 0, every later one [overlap] characters
    before the end of the one before it, [s < e <= s + chunk_size], and no
    window ends before the one before it. The unstripped windows, each but
    the first without its first [overlap] characters, concatenate to the
    text up to the end of the last window: to the whole text when the last
    window reaches its end. *)
Theorem chunks_are_stripped_windows self text fuel chunks :
  0 < chunk_size self ->
  0 <= chunk_overlap self < chunk_size self ->
  chunk_size self < len text ->
  _split_text_into_chunks self text fuel = Some chunks ->
  exists ws : list (Z * Z),
    split_windows self text fuel 0 [] = Some ws /\
    chunks = nonempty_chunks (map (fun w => strip (slice text w.1 w.2)) ws) /\
    chained (chunk_overlap self) 0 ws /\
    Forall (fun w => 0 <= w.1 < w.2 /\ w.2 <= w.1 + chunk_size self) ws /\
    ends_nondecreasing 0 ws /\
    remove_overlaps (chunk_overlap self)
      (map (fun w => slice text w.1 w.2) ws)
      = slice text 0 (last_end 0 ws) /\
    (len text <= last_end 0 ws ->
     remove_overlaps (chunk_overlap self)
       (map (fun w => slice text w.1 w.2) ws) = text).
Proof.
  intros Hpos Hov Hlong Hrun.
  unfold _split_text_into_chunks in Hrun.
  destruct (Z.leb_spec (len text) (chunk_size self)); [lia|].
  rewrite split_loop_windows in Hrun.
  destruct (split_windows self text fuel 0 []) as [ws|] eqn:Hws; [|done].
  injection Hrun as <-. exists ws.
  destruct (split_windows_chained self text fuel 0 ws Hpos (Z.le_refl 0) Hws)
    as [Hchain Hf].
  pose proof (split_windows_ends_0 self text fuel ws Hpos Hov Hws) as Hmono.
  assert (Hrec : remove_overlaps (chunk_overlap self)
                   (map (fun w => slice text w.1 w.2) ws)
                 = slice text 0 (last_end 0 ws)).
  { destruct ws as [|[s e] ws];
      [simpl; unfold slice; by rewrite Z.sub_diag|].
    simpl in *.
    destruct Hchain as [-> Hchain]. destruct Hmono as [He Hmono].
    apply Forall_cons in Hf as [Hw Hf]. simpl in Hw.
    rewrite map_map.
    rewrite (windows_concat text (chunk_overlap self) ws e);
      [ | lia | done | done | ].
    - apply slice_app; [lia | lia | by apply last_end_ge].
    - eapply Forall_impl; [exact Hf|]. simpl. intros; lia. }
  repeat split; try done.
  intros Hlast. rewrite Hrec. by apply slice_all.
Qed.

(** The four windows of ["ab cd ef gh"] put the text together again. *)
Lemma chunks_are_stripped_windows_witness :
  exists ws : list (Z * Z),
    ws = [(0, 2); (2, 5); (5, 8); (8, 13)] /\
    _split_text_into_chunks (mk 5 0) words 10 =
      Some (nonempty_chunks (map (fun w => strip (slice words w.1 w.2)) ws)) /\
    remove_overlaps 0 (map (fun w => slice words w.1 w.2) ws) = words.
Proof.
  destruct (chunks_are_stripped_windows (mk 5 0) words 10
              [lit "ab"; lit "cd"; lit "ef"; lit "gh"])
    as (ws & Hws & Hchunks & _ & _ & _ & _ & Hrec);
    [cbn; lia | cbn; lia | reflexivity | reflexivity |].
  exists ws.
  assert (Hval : ws = [(0, 2); (2, 5); (5, 8); (8, 13)])
    by (vm_compute in Hws; congruence).
  split; [exact Hval|]. split.
  - rewrite Hval. reflexivity.
  - apply Hrec. rewrite Hval. discriminate.
Defined.

(** C5, as the specification states it, fails: the chunks of
    ["ab cd ef gh"] for [chunk_size = 5] and no overlap are the four
    words; the spaces between them are gone, so the chunks put together
    are not the text, whatever is cut from the front of each. *)
Lemma chunks_do_not_reconstruct_text :
  _split_text_into_chunks (mk 5 0) words 10 =
    Some [lit "ab"; lit "cd"; lit "ef"; lit "gh"] /\
  remove_overlaps 0 [lit "ab"; lit "cd"; lit "ef"; lit "gh"] <> words /\
  forall cuts : list nat,
    concat (zip_with drop cuts [lit "ab"; lit "cd"; lit "ef"; lit "gh"])
    <> words.
Proof.
  split; [reflexivity|]. split; [discriminate|].
  intros cuts Heq.
  apply (f_equal length) in Heq.
  assert (Hle : forall (l : list str) (ks : list nat),
             (length (concat (zip_with drop ks l)) <= length (concat l))%nat).
  { induction l as [|x l IH]; intros [|k ks]; simpl; try lia.
    rewrite !length_app, length_drop. specialize (IH ks). lia. }
  specialize (Hle [lit "ab"; lit "cd"; lit "ef"; lit "gh"] cuts).
  rewrite Heq in Hle. vm_compute in Hle. lia.
Qed.
End CoverageClaims.

(** * Properties of the pipeline *)

Section ContextFacts.
Import RAGPipeline.
Context {Score : Type}.
Implicit Types (docs : list (@Hit Score)) (parts : list str).

Lemma len_app (a b : str) : len (a ++ b) = len a + len b.
Proof. unfold len. rewrite length_app. lia. Qed.

Lemma sum_len_app parts1 parts2 :
  sum_len (parts1 ++ parts2) = sum_len parts1 + sum_len parts2.
Proof. induction parts1 as [|p l IH]; simpl; [done | rewrite IH; lia]. Qed.

(** [join] adds one separator between two parts, and none at the ends. *)
Lemma len_join sep parts :
  len (join sep parts) =
  sum_len parts + len sep * Z.of_nat (length parts - 1).
Proof.
  induction parts as [|p [|q l] IH].
  - simpl. unfold len. simpl. lia.
  - simpl. unfold len. lia.
  - change (join sep (p :: q :: l)) with (p ++ sep ++ join sep (q :: l)).
    rewrite !len_app, IH. simpl sum_len. simpl length.
    replace (S (S (length l)) - 1)%nat with (S (S (length l) - 1)) by lia.
    rewrite Nat2Z.inj_succ. lia.
Qed.

Lemma prepare_loop_acc max_length docs : forall i parts current_length,
  prepare_loop (Score:=Score) max_length i docs parts current_length =
  parts ++ prepare_loop max_length i docs [] current_length.
Proof.
  induction docs as [|doc docs IH]; intros i parts cur; simpl.
  - by rewrite app_nil_r.
  - destruct (_ >? max_length); [by rewrite app_nil_r|].
    rewrite IH, (IH _ [_]). by rewrite <- app_assoc.
Qed.

(** The loop counts the characters of the blocks, and stays within the
    budget for them. *)
Lemma prepare_loop_budget max_length docs : forall i current_length,
  let parts := prepare_loop max_length i docs [] current_length in
  parts = [] \/ current_length + sum_len parts <= max_length.
Proof.
  induction docs as [|doc docs IH]; intros i cur; simpl; [by left|].
  destruct (Z.gtb_spec (cur + len (doc_text i doc)) max_length); [by left|].
  right. rewrite prepare_loop_acc, sum_len_app. simpl.
  destruct (IH (S i) (cur + len (doc_text i doc))) as [-> | Hle];
    simpl in *; lia.
Qed.

(** The blocks are those of a prefix of the documents, in their order, the
    block at position [n] carrying the label [n + 1]. *)
Lemma prepare_loop_lookup max_length docs : forall i current_length n block,
  prepare_loop max_length i docs [] current_length !! n = Some block ->
  exists doc, docs !! n = Some doc /\ block = doc_text (i + n) doc.
Proof.
  induction docs as [|doc docs IH]; intros i cur n block; simpl; [done|].
  destruct (_ >? max_length); [done|].
  rewrite prepare_loop_acc.
  destruct n as [|n]; simpl.
  - intros [= <-]. exists doc. by rewrite Nat.add_0_r.
  - intros H. apply IH in H as (d & Hd & ->).
    exists d. split; [done | f_equal; lia].
Qed.

Lemma prepare_loop_length max_length docs : forall i current_length,
  (length (prepare_loop max_length i docs [] current_length)
   <= length docs)%nat.
Proof.
  induction docs as [|doc docs IH]; intros i cur; simpl; [lia|].
  destruct (_ >? max_length); simpl; [lia|].
  rewrite prepare_loop_acc. simpl. specialize (IH (S i) (cur + len (doc_text i doc))).
  lia.
Qed.

(** The length of the context: the blocks, and a newline between each
    two of them, which the budget does not count. *)
Lemma len_prepare_context (self : @t Score) docs :
  len (_prepare_context self docs) =
  sum_len (context_parts self docs)
  + Z.of_nat (length (context_parts self docs) - 1).
Proof. unfold _prepare_context. rewrite len_join. unfold nl, len. simpl. lia. Qed.

Lemma context_parts_budget (self : @t Score) docs :
  context_parts self docs = [] \/
  sum_len (context_parts self docs) <= max_context_length self.
Proof.
  destruct (prepare_loop_budget (max_context_length self) docs 0 0) as [H|H];
    [by left | right; unfold context_parts; lia].
Qed.
End ContextFacts.

Section QueryFacts.
Import RAGPipeline.
Context {Score : Type} (score_lt : Score -> Score -> bool).
Implicit Types (self : @t Score) (docs : list (@Hit Score)).

Lemma retrieve_returns self question k :
  exists docs, _retrieve_documents score_lt self question k = Ok docs.
Proof.
  unfold _retrieve_documents.
  destruct (similarity_search_with_score _ question k); simpl; eauto.
Qed.

Lemma len_lit_app_pos (a : string) (b : str) :
  0 < len (lit a) -> 0 < len (lit a ++ b).
Proof. rewrite len_app. pose proof (len_nonneg b). lia. Qed.

Lemma generate_returns self question context :
  exists answer,
    _generate_answer self question context = Ok answer /\ 0 < len answer.
Proof.
  unfold _generate_answer.
  destruct (generate_response _ _) as [a|[msg]];
    cbn [try_except mbind result_bind].
  - destruct a as [|c a]; cbn [is_nil orb];
      [eexists; split; reflexivity|].
    destruct (is_nil (strip (c :: a))); eexists; (split; [reflexivity|]);
      [reflexivity | unfold len; simpl; lia].
  - eexists. split; [reflexivity|]. apply len_lit_app_pos. reflexivity.
Qed.

(** What [query] does once documents were found. *)
Lemma query_with_documents self question k docs :
  _retrieve_documents score_lt self question k = Ok docs -> docs <> [] ->
  query score_lt self question k =
  try_except
    (answer ← _generate_answer self question (_prepare_context self docs);
     Ok (mkResponse answer (_format_sources docs)))
    (fun e =>
       Ok (mkResponse
             (lit "An error occurred while processing your question: "
                ++ str_of_exn e) [])).
Proof.
  intros Hdocs Hne. unfold query. rewrite Hdocs. simpl.
  by destruct docs.
Qed.

Lemma len_source_content (doc : @Hit Score) :
  len (content (source_info doc)) <= 503.
Proof.
  unfold source_info. simpl.
  destruct (Z.gtb_spec (len (content doc)) 500); [|lia].
  rewrite len_app. pose proof (len_slice (content doc) 0 500).
  change (len (lit "...")) with 3. lia.
Qed.
End QueryFacts.

Section PipelineClaims.
Import RAGPipeline.
Context {Score : Type} (score_lt : Score -> Score -> bool).
Implicit Types (self : @t Score) (docs : list (@Hit Score)).

(** C6. [query] never raises: whatever the vector store and the generator
    do, fail included, it returns a response, and the answer of that
    response is not the empty string. *)
Theorem query_never_raises self question num_sources :
  exists response,
    query score_lt self question num_sources = Ok response /\
    0 < len (answer response).
Proof.
  destruct (retrieve_returns score_lt self question num_sources)
    as [docs Hdocs].
  destruct docs as [|doc docs].
  - unfold query. rewrite Hdocs. cbn [mbind result_bind is_nil try_except].
    eexists. split; reflexivity.
  - rewrite (query_with_documents score_lt self question num_sources
               (doc :: docs) Hdocs) by done.
    destruct (generate_returns self question
                (_prepare_context self (doc :: docs))) as (a & -> & Ha).
    cbn [mbind result_bind try_except].
    eexists. split; [reflexivity | exact Ha].
Qed.

(** A search that fails is answered with the text for no results and no
    sources. *)
Lemma query_retrieval_failure self question num_sources e :
  similarity_search_with_score (vector_store self) question num_sources
    = Raise e ->
  query score_lt self question num_sources =
  Ok (mkResponse
        (lit "I couldn't find any relevant information in the uploaded documents to answer your question.")
        []).
Proof.
  intros H. unfold query, _retrieve_documents. rewrite H. reflexivity.
Qed.

(** C7. When documents were found and the generator raises, [query]
    returns a response: its answer is the fixed sentence followed by the
    text of the exception, so it is not empty; its sources are all the
    retrieved documents, in order, each with at most 500 characters of
    content and the three dots. *)
Theorem generation_failure_keeps_sources self question num_sources docs msg :
  _retrieve_documents score_lt self question num_sources = Ok docs ->
  docs <> [] ->
  generate_response (gemini_client self)
    (prompt question (_prepare_context self docs)) = Raise (Exception msg) ->
  query score_lt self question num_sources =
    Ok (mkResponse
          (lit "I encountered an error while generating an answer: " ++ msg)
          (_format_sources docs)) /\
  0 < len (lit "I encountered an error while generating an answer: " ++ msg) /\
  length (_format_sources docs) = length docs /\
  Forall (fun source => len (content source) <= 503) (_format_sources docs) /\
  _format_sources docs <> [].
Proof.
  intros Hdocs Hne Hgen.
  rewrite (query_with_documents score_lt self question num_sources docs Hdocs Hne).
  unfold _generate_answer. rewrite Hgen.
  split; [reflexivity|]. split; [apply len_lit_app_pos; reflexivity|].
  unfold _format_sources. split; [apply length_map|]. split.
  - apply Forall_map, Forall_forall. intros doc _. apply len_source_content.
  - by destruct docs.
Qed.

(** C8. The source at position [n] is made from the document at position
    [n]: same score, same metadata; the same content when that has at most
    500 characters, otherwise its first 500 characters followed by three
    dots, 503 characters in all. *)
Theorem format_sources_truncates docs (n : nat) (doc : @Hit Score) :
  docs !! n = Some doc ->
  exists source,
    _format_sources docs !! n = Some source /\
    score source = score doc /\
    metadata source = metadata doc /\
    (len (content doc) <= 500 -> content source = content doc) /\
    (500 < len (content doc) ->
       content source = take 500 (content doc) ++ lit "..." /\
       len (content source) = 503).
Proof.
  intros Hn. exists (source_info doc).
  unfold _format_sources. rewrite list_lookup_fmap, Hn.
  split; [done|]. split; [done|]. split; [done|].
  unfold source_info. cbn [content].
  destruct (Z.gtb_spec (len (content doc)) 500) as [Hgt|Hle].
  - split; [lia|]. intros _.
    rewrite slice_nonneg by lia. change (Z.to_nat 500 - Z.to_nat 0)%nat with 500%nat.
    change (Z.to_nat 0) with O. rewrite drop_0. split; [done|].
    rewrite len_app. unfold len in *. rewrite length_take.
    change (length (lit "...")) with 3%nat. lia.
  - split; [done | lia].
Qed.

(** C10. [update_vector_store] puts the new store in place and leaves the
    generator and the context budget as they were. *)
Theorem update_vector_store_frame self (new_vector_store : @VectorStore Score) :
  vector_store (update_vector_store self new_vector_store) = new_vector_store /\
  gemini_client (update_vector_store self new_vector_store)
    = gemini_client self /\
  max_context_length (update_vector_store self new_vector_store)
    = max_context_length self.
Proof. by repeat split. Qed.

(** C2, as the code has it. When documents were found, the sources of the
    response are all the retrieved documents, formatted, in the order of
    retrieval; they are not cut down to the documents that entered the
    context. The context holds the blocks of a prefix of these documents in
    the same order: the block at position [n], labelled [Source n+1], is
    made from the document whose source is at position [n]. *)
Theorem sources_follow_context_order self question num_sources docs :
  _retrieve_documents score_lt self question num_sources = Ok docs ->
  docs <> [] ->
  exists answer,
    query score_lt self question num_sources =
      Ok (mkResponse answer (_format_sources docs)) /\
    length (_format_sources docs) = length docs /\
    (length (context_parts self docs) <= length docs)%nat /\
    forall (n : nat) (block : str),
      context_parts self docs !! n = Some block ->
      exists doc,
        docs !! n = Some doc /\
        block = doc_text n doc /\
        _format_sources docs !! n = Some (source_info doc).
Proof.
  intros Hdocs Hne.
  rewrite (query_with_documents score_lt self question num_sources docs Hdocs Hne).
  destruct (generate_returns self question (_prepare_context self docs))
    as (a & -> & _).
  exists a. split; [reflexivity|].
  split; [apply length_map|]. split; [apply prepare_loop_length|].
  intros n block Hblock.
  apply prepare_loop_lookup in Hblock as (doc & Hdoc & ->).
  exists doc. split; [done|]. split; [done|].
  unfold _format_sources. by rewrite list_lookup_fmap, Hdoc.
Qed.
End PipelineClaims.

Section PipelineExamples.
Import RAGPipeline.

(** The two retrieved documents are still listed when the generator
    fails. *)
Lemma generation_failure_keeps_sources_witness :
  query Z.ltb failing_pipeline (lit "q") 4 =
  Ok (mkResponse
        (lit "I encountered an error while generating an answer: "
           ++ lit "Failed to generate response: quota")
        [hit_a; hit_b]).
Proof.
  apply (generation_failure_keeps_sources Z.ltb failing_pipeline (lit "q") 4
           [hit_a; hit_b] (lit "Failed to generate response: quota"));
    [reflexivity | discriminate | reflexivity].
Defined.

(** A content of 600 characters becomes one of 503. *)
Lemma format_sources_truncates_witness :
  len (content long_hit) = 600 /\
  exists source,
    _format_sources [hit_a; long_hit] !! 1%nat = Some source /\
    len (content source) = 503.
Proof.
  split; [reflexivity|].
  destruct (format_sources_truncates [hit_a; long_hit] 1 long_hit eq_refl)
    as (source & Hsource & _ & _ & _ & Hlong).
  exists source. split; [exact Hsource|]. apply Hlong. reflexivity.
Defined.

(** Both documents are sources; one block is in the context. *)
Lemma sources_follow_context_order_witness :
  exists answer,
    query Z.ltb (pipeline 20) (lit "q") 4 =
      Ok (mkResponse answer (_format_sources [hit_a; hit_b])) /\
    context_parts (pipeline 20) [hit_a; hit_b] = [doc_text 0 hit_a].
Proof.
  destruct (sources_follow_context_order Z.ltb (pipeline 20) (lit "q") 4
              [hit_a; hit_b]) as (answer & Hquery & _);
    [reflexivity | discriminate |].
  exists answer. split; [exact Hquery | reflexivity].
Defined.

(** C2, as the specification states it, fails: with a budget of 20
    characters only the first of the two retrieved documents enters the
    context, and the response lists both as sources. *)
Lemma sources_are_not_trimmed :
  exists response docs,
    _retrieve_documents Z.ltb (pipeline 20) (lit "q") 4 = Ok docs /\
    docs <> [] /\
    query Z.ltb (pipeline 20) (lit "q") 4 = Ok response /\
    length (context_parts (pipeline 20) docs) = 1%nat /\
    length (sources response) = 2%nat /\
    sources response <>
      _format_sources (take (length (context_parts (pipeline 20) docs)) docs).
Proof.
  exists (mkResponse (lit "An answer.") [hit_a; hit_b]), [hit_a; hit_b].
  repeat split; try reflexivity; discriminate.
Qed.

(** C1. The budget counts the blocks and not the newlines [join] puts
    between them: two blocks of 17 characters fit a budget of 34 and are
    both taken, in order, and the context has 35 characters. *)
Theorem context_exceeds_budget :
  _retrieve_documents Z.ltb (pipeline 34) (lit "q") 4 = Ok [hit_a; hit_b] /\
  context_parts (pipeline 34) [hit_a; hit_b]
    = [doc_text 0 hit_a; doc_text 1 hit_b] /\
  sum_len (context_parts (pipeline 34) [hit_a; hit_b]) = 34 /\
  len (_prepare_context (pipeline 34) [hit_a; hit_b]) = 35 /\
  max_context_length (pipeline 34) = 34.
Proof. repeat split. Qed.

End PipelineExamples.

(** * More on the chunker *)

Section StripFacts.
Implicit Types (s : str).

Lemma lstrip_drop s : exists k, lstrip s = drop k s.
Proof.
  induction s as [|c s [k IH]]; simpl; [by exists O|].
  destruct (isspace c); [by exists (S k) | by exists O].
Qed.

Lemma lstrip_head s c r : lstrip s = c :: r -> isspace c = false.
Proof.
  induction s as [|x s IH]; simpl; [done|].
  destruct (isspace x) eqn:E; [done | by intros [= <- _]].
Qed.

Lemma lstrip_fixed s c r : s = c :: r -> isspace c = false -> lstrip s = s.
Proof. intros -> H. simpl. by rewrite H. Qed.

Lemma lstrip_idemp s : lstrip (lstrip s) = lstrip s.
Proof.
  destruct (lstrip s) as [|c r] eqn:E; [done|].
  eapply lstrip_fixed; [done | by eapply lstrip_head].
Qed.

Lemma rstrip_take s : exists n, rstrip s = take n s.
Proof.
  unfold rstrip. destruct (lstrip_drop (reverse s)) as [k ->].
  rewrite drop_reverse, reverse_involutive. eauto.
Qed.

(** [strip] keeps a run of consecutive characters of its argument. *)
Lemma strip_take_drop s : exists m n, strip s = take n (drop m s).
Proof.
  unfold strip.
  destruct (lstrip_drop s) as [m ->].
  destruct (rstrip_take (drop m s)) as [n ->]. eauto.
Qed.

Lemma strip_stripped s : stripped (strip s).
Proof.
  split.
  - unfold strip. destruct (rstrip_take (lstrip s)) as [n ->].
    destruct (lstrip s) as [|c r] eqn:E; [by rewrite take_nil|].
    destruct n as [|n]; [done|]. simpl.
    by rewrite (lstrip_head _ _ _ E).
  - unfold strip, rstrip. rewrite reverse_involutive. apply lstrip_idemp.
Qed.

Lemma stripped_strip s : stripped s -> strip s = s.
Proof.
  intros [H1 H2]. unfold strip, rstrip.
  by rewrite H1, H2, reverse_involutive.
Qed.

Lemma occurs_in_take_drop s m n : occurs_in (take n (drop m s)) s.
Proof.
  exists (take m s), (drop n (drop m s)).
  by rewrite take_drop, take_drop.
Qed.

Lemma occurs_in_trans (a b c : str) :
  occurs_in a b -> occurs_in b c -> occurs_in a c.
Proof.
  intros (p1 & q1 & ->) (p2 & q2 & ->).
  exists (p2 ++ p1), (q1 ++ q2). by rewrite <- !app_assoc.
Qed.

Lemma strip_occurs_in_slice s a b : occurs_in (strip (slice s a b)) s.
Proof.
  destruct (strip_take_drop (slice s a b)) as (m & n & ->).
  eapply occurs_in_trans; [apply occurs_in_take_drop|].
  unfold slice. apply occurs_in_take_drop.
Qed.
End StripFacts.

Section RfindFacts.
Implicit Types (s : str) (c : ascii).

Lemma clamp_id n i : 0 <= i -> i <= n -> clamp n i = i.
Proof. intros. unfold clamp. destruct (Z.ltb_spec i 0); lia. Qed.

Lemma rfind_found c s a b :
  0 <= a -> a <= b -> b <= len s -> a <= rfind c s a b ->
  char_at s (rfind c s a b) = Some c.
Proof.
  intros Ha Hb Hl. unfold rfind, char_at.
  rewrite (clamp_id (len s) a) by lia.
  destruct (last_index c (slice s a b)) as [k|] eqn:Hk; [intros _|lia].
  pose proof (last_index_lt _ _ _ Hk) as Hlt.
  pose proof (len_slice s a b Ha Hb) as Hls. unfold len in Hls.
  apply last_index_lookup in Hk. rewrite slice_lookup in Hk by lia.
  rewrite <- Hk. f_equal. lia.
Qed.

Lemma rfind_max c s a b q :
  0 <= a -> a <= q < b -> b <= len s -> char_at s q = Some c ->
  q <= rfind c s a b.
Proof.
  intros Ha Hq Hl Hc. unfold rfind, char_at in *.
  rewrite (clamp_id (len s) a) by lia.
  assert (Hs : slice s a b !! Z.to_nat (q - a) = Some c).
  { rewrite slice_lookup by lia. rewrite <- Hc. f_equal. lia. }
  apply last_index_max in Hs as (k & -> & Hk). lia.
Qed.

Lemma is_sentence_end_cases c :
  is_sentence_end c = true -> c = "."%char \/ c = "!"%char \/ c = "?"%char.
Proof.
  unfold is_sentence_end. rewrite !orb_true_iff, !Ascii.eqb_eq. tauto.
Qed.
End RfindFacts.

Section CutFacts.
Import DocumentProcessor.
Variable self : DocumentProcessor.t.
Variable text : str.

(** [sentence_end] and [last_space] of a window, with what is known of
    them. *)
Lemma sentence_end_spec start stop :
  0 <= start -> start <= stop -> stop <= len text ->
  let sentence_end :=
    Z.max (Z.max (rfind "." text start stop) (rfind "!" text start stop))
          (rfind "?" text start stop) in
  (sentence_end = -1 \/ start <= sentence_end < stop) /\
  (start <= sentence_end ->
   exists c, char_at text sentence_end = Some c /\ is_sentence_end c = true) /\
  (forall q c, start <= q < stop -> char_at text q = Some c ->
     is_sentence_end c = true -> q <= sentence_end).
Proof.
  intros Ha Hb Hl.
  pose proof (rfind_range "." text start stop Ha Hb Hl) as R1.
  pose proof (rfind_range "!" text start stop Ha Hb Hl) as R2.
  pose proof (rfind_range "?" text start stop Ha Hb Hl) as R3.
  pose proof (rfind_found "." text start stop Ha Hb Hl) as F1.
  pose proof (rfind_found "!" text start stop Ha Hb Hl) as F2.
  pose proof (rfind_found "?" text start stop Ha Hb Hl) as F3.
  cbv zeta. split; [by apply max3_range|]. split.
  - intros Hfound.
    set (m := Z.max (Z.max (rfind "." text start stop)
                           (rfind "!" text start stop))
                    (rfind "?" text start stop)) in *.
    assert (Hc : m = rfind "." text start stop \/ m = rfind "!" text start stop
                 \/ m = rfind "?" text start stop) by (unfold m; lia).
    destruct Hc as [E|[E|E]]; rewrite E in *.
    + exists "."%char. split; [by apply F1 | done].
    + exists "!"%char. split; [by apply F2 | done].
    + exists "?"%char. split; [by apply F3 | done].
  - intros q c Hq Hc Hend.
    apply is_sentence_end_cases in Hend as [-> | [-> | ->]].
    + pose proof (rfind_max _ _ _ _ _ Ha Hq Hl Hc). lia.
    + pose proof (rfind_max _ _ _ _ _ Ha Hq Hl Hc). lia.
    + pose proof (rfind_max _ _ _ _ _ Ha Hq Hl Hc). lia.
Qed.
End CutFacts.

Section ChunkerExtras.
Import DocumentProcessor.
Variable self : DocumentProcessor.t.
Variable text : str.

Lemma nonempty_chunks_spec (l : list str) (c : str) :
  In c (nonempty_chunks l) <-> In c l /\ c <> [].
Proof.
  unfold nonempty_chunks. rewrite List.filter_In.
  destruct c; simpl; split; intros [? ?]; split; done.
Qed.

Lemma window_chunks_stripped (ws : list (Z * Z)) :
  Forall (fun c => c <> [] /\ stripped c /\ strip c = c)
    (nonempty_chunks (map (fun w => strip (slice text w.1 w.2)) ws)).
Proof.
  apply Forall_forall. intros c Hc. apply list_elem_of_In in Hc.
  apply nonempty_chunks_spec in Hc as [Hc Hne].
  apply in_map_iff in Hc as (w & <- & _).
  split; [done|]. split; [apply strip_stripped|].
  apply stripped_strip, strip_stripped.
Qed.

(** Every chunk cut by the loop is free of surrounding whitespace and is
    not empty: stripping it again changes nothing. *)
Theorem loop_chunks_are_stripped fuel chunks :
  chunk_size self < len text ->
  _split_text_into_chunks self text fuel = Some chunks ->
  Forall (fun c => c <> [] /\ stripped c /\ strip c = c) chunks.
Proof.
  intros Hlong Hrun. unfold _split_text_into_chunks in Hrun.
  destruct (Z.leb_spec (len text) (chunk_size self)); [lia|].
  rewrite split_loop_windows in Hrun.
  destruct (split_windows self text fuel 0 []) as [ws|]; [|done].
  injection Hrun as <-. simpl.
  apply window_chunks_stripped.
Qed.

(** Every chunk is a run of consecutive characters of the text: the
    chunker adds nothing and reorders nothing. *)
Theorem chunks_occur_in_text fuel chunks :
  _split_text_into_chunks self text fuel = Some chunks ->
  Forall (fun c => occurs_in c text) chunks.
Proof.
  intros Hrun. unfold _split_text_into_chunks in Hrun.
  destruct (len text <=? chunk_size self).
  - injection Hrun as <-. apply Forall_singleton.
    exists [], []. by rewrite app_nil_r.
  - rewrite split_loop_windows in Hrun.
    destruct (split_windows self text fuel 0 []) as [ws|]; [|done].
    injection Hrun as <-. simpl.
    apply Forall_forall. intros c Hc. apply list_elem_of_In in Hc.
    apply nonempty_chunks_spec in Hc as [Hc _].
    apply in_map_iff in Hc as (w & <- & _).
    apply strip_occurs_in_slice.
Qed.

(** A sentence end inside the window decides the cut: the window ends
    right after the last [.], [!] or [?] that lies after its first
    character. *)
Theorem sentence_end_is_preferred start q c :
  0 <= start -> start < q < start + chunk_size self ->
  start + chunk_size self < len text ->
  char_at text q = Some c -> is_sentence_end c = true ->
  q < cut_point self text start <= start + chunk_size self /\
  (exists c', char_at text (cut_point self text start - 1) = Some c' /\
              is_sentence_end c' = true) /\
  (forall q' c', cut_point self text start <= q' < start + chunk_size self ->
     char_at text q' = Some c' -> is_sentence_end c' = false).
Proof.
  intros Hs Hq Hin Hc Hend. unfold cut_point.
  destruct (Z.ltb_spec (start + chunk_size self) (len text)); [|lia].
  destruct (sentence_end_spec text start (start + chunk_size self))
    as (Hrange & Hfound & Hmax); [lia | lia | lia |].
  set (se := Z.max _ _) in *.
  pose proof (Hmax q c ltac:(lia) Hc Hend) as Hle.
  destruct (Z.gtb_spec se start); [|lia].
  split; [lia|]. split.
  - replace (se + 1 - 1) with se by lia. apply Hfound. lia.
  - intros q' c' Hq' Hc'. destruct (is_sentence_end c') eqn:E; [|done].
    pose proof (Hmax q' c' ltac:(lia) Hc' E). lia.
Qed.

(** Without a sentence end after the first character of the window, the
    cut falls on the last space after that character, which is left out
    of the chunk. *)
Theorem space_is_second_choice start q :
  0 <= start -> start < q < start + chunk_size self ->
  start + chunk_size self < len text ->
  (forall q' c', start < q' < start + chunk_size self ->
     char_at text q' = Some c' -> is_sentence_end c' = false) ->
  char_at text q = Some " "%char ->
  q <= cut_point self text start < start + chunk_size self /\
  char_at text (cut_point self text start) = Some " "%char /\
  (forall q', cut_point self text start < q' < start + chunk_size self ->
     char_at text q' <> Some " "%char).
Proof.
  intros Hs Hq Hin Hnone Hc. unfold cut_point.
  destruct (Z.ltb_spec (start + chunk_size self) (len text)); [|lia].
  destruct (sentence_end_spec text start (start + chunk_size self))
    as (Hrange & Hfound & Hmax); [lia | lia | lia |].
  set (se := Z.max _ _) in *.
  destruct (Z.gtb_spec se start) as [Hgt|_].
  { destruct Hfound as (c' & Hc' & Hend); [lia|].
    rewrite (Hnone se c') in Hend; [done | lia | done]. }
  pose proof (rfind_range " " text start (start + chunk_size self)) as R.
  pose proof (rfind_found " " text start (start + chunk_size self)) as F.
  pose proof (rfind_max " " text start (start + chunk_size self)) as M.
  set (ls := rfind " " text start (start + chunk_size self)) in *.
  pose proof (M q ltac:(lia) ltac:(lia) ltac:(lia) Hc).
  destruct (Z.gtb_spec ls start); [|lia].
  destruct R as [R|R]; [lia | lia | lia | lia |].
  split; [lia|]. split; [apply F; lia|].
  intros q' Hq' Hc'. pose proof (M q' ltac:(lia) ltac:(lia) ltac:(lia) Hc'). lia.
Qed.

(** With neither in the window, or when the window reaches the end of the
    text, the cut is the hard one at [start + chunk_size]. *)
Theorem hard_cut_otherwise start :
  0 < chunk_size self -> 0 <= start ->
  len text <= start + chunk_size self \/
  (forall q c, start < q < start + chunk_size self ->
     char_at text q = Some c ->
     is_sentence_end c = false /\ c <> " "%char) ->
  cut_point self text start = start + chunk_size self.
Proof.
  intros Hpos Hs Hcase. unfold cut_point.
  destruct (Z.ltb_spec (start + chunk_size self) (len text)); [|done].
  destruct Hcase as [|Hnone]; [lia|].
  destruct (sentence_end_spec text start (start + chunk_size self))
    as (Hrange & Hfound & Hmax); [lia | lia | lia |].
  set (se := Z.max _ _) in *.
  destruct (Z.gtb_spec se start) as [Hgt|_].
  { destruct Hfound as (c' & Hc' & Hend); [lia|].
    destruct (Hnone se c') as [E _]; [lia | done | congruence]. }
  pose proof (rfind_range " " text start (start + chunk_size self)) as R.
  pose proof (rfind_found " " text start (start + chunk_size self)) as F.
  set (ls := rfind " " text start (start + chunk_size self)) in *.
  destruct (Z.gtb_spec ls start); [|done].
  destruct R as [R|R]; [lia | lia | lia | lia |].
  destruct (Hnone ls " "%char) as [_ E]; [lia | apply F; lia | done].
Qed.
End ChunkerExtras.

Section ProgressFacts.
Import DocumentProcessor.
Variable self : DocumentProcessor.t.
Variable text : str.

Lemma split_loop_progress fuel : forall prev start chunks,
  0 < chunk_size self ->
  0 <= chunk_overlap self < chunk_size self ->
  no_repeated_window self text ->
  0 <= prev -> prev <= start -> 0 < start ->
  start = cut_point self text prev - chunk_overlap self ->
  Z.max 0 (len text - start) < Z.of_nat fuel ->
  exists result, split_loop self text fuel start chunks = Some result.
Proof.
  induction fuel as [|fuel IH];
    intros prev start chunks Hpos Hov Hno Hp Hps Hs Hst Hfuel; simpl; [lia|].
  destruct (Z.ltb_spec start (len text)); [|eauto].
  destruct (Z.leb_spec (cut_point self text start - chunk_overlap self) 0);
    [eauto|].
  assert (cut_point self text prev <= cut_point self text start)
    by (rewrite Hst; apply cut_point_mono; [done | done | done | lia]).
  pose proof (Hno start ltac:(lia)).
  apply (IH start); [done | done | done | lia | lia | lia | done | lia].
Qed.

Lemma split_loop_returns :
  0 < chunk_size self ->
  0 <= chunk_overlap self < chunk_size self ->
  no_repeated_window self text ->
  forall chunks,
  exists result,
    split_loop self text (S (Z.to_nat (len text))) 0 chunks = Some result.
Proof.
  intros Hpos Hov Hno chunks. simpl.
  destruct (Z.ltb_spec 0 (len text)); [|eauto].
  destruct (Z.leb_spec (cut_point self text 0 - chunk_overlap self) 0);
    [eauto|].
  apply (split_loop_progress _ 0); [done | done | done | lia | lia | lia | done | lia].
Qed.

Lemma split_windows_exit fuel : forall start ws p,
  split_windows self text fuel start [] = Some ws ->
  match ws with
  | [] => len text <= start
  | _ :: _ => last_end p ws - chunk_overlap self <= 0 \/
              len text <= last_end p ws - chunk_overlap self
  end.
Proof.
  induction fuel as [|fuel IH]; intros start ws p; simpl; [done|].
  destruct (Z.ltb_spec start (len text)); [|by intros [= <-]].
  destruct (Z.leb_spec (cut_point self text start - chunk_overlap self) 0).
  - intros [= <-]. simpl. by left.
  - rewrite split_windows_acc.
    destruct (split_windows self text fuel _ []) as [ws'|] eqn:E; [|done].
    intros [= <-]. simpl.
    specialize (IH _ _ (cut_point self text start) E).
    destruct ws'; simpl in *; [by right | done].
Qed.

Lemma windows_reconstruct (ws : list (Z * Z)) :
  0 <= chunk_overlap self ->
  chained (chunk_overlap self) 0 ws ->
  ends_nondecreasing 0 ws ->
  Forall (fun w => 0 <= w.1 < w.2) ws ->
  remove_overlaps (chunk_overlap self) (map (fun w => slice text w.1 w.2) ws)
  = slice text 0 (last_end 0 ws).
Proof.
  intros Hov Hchain Hmono Hf.
  destruct ws as [|[s e] ws]; [simpl; unfold slice; by rewrite Z.sub_diag|].
  simpl in *. destruct Hchain as [-> Hchain]. destruct Hmono as [He Hmono].
  apply Forall_cons in Hf as [Hw Hf]. simpl in Hw.
  rewrite map_map.
  rewrite (windows_concat text (chunk_overlap self) ws e) by done.
  apply slice_app; [lia | lia | by apply last_end_ge].
Qed.

Lemma remove_no_overlap (pieces : list str) :
  remove_overlaps 0 pieces = concat pieces.
Proof.
  destruct pieces as [|p ps]; [done|]. simpl. f_equal. f_equal.
  induction ps as [|q ps IH]; simpl; [done | by rewrite IH].
Qed.

End ProgressFacts.

Section ProgressClaims.
Import DocumentProcessor.
Variable self : DocumentProcessor.t.
Variable text : str.

(** The chunker returns, within [len text + 1] iterations, unless some
    start inside the text is sent back to itself by the step
    [start = end - overlap]. *)
Theorem chunker_returns_unless_window_repeats :
  0 < chunk_size self ->
  0 <= chunk_overlap self < chunk_size self ->
  no_repeated_window self text ->
  exists chunks,
    _split_text_into_chunks self text (S (Z.to_nat (len text))) = Some chunks.
Proof.
  intros Hpos Hov Hno. unfold _split_text_into_chunks.
  destruct (len text <=? chunk_size self); [eauto|].
  by apply split_loop_returns.
Qed.

(** A start inside the text that the step sends back to itself is never
    left: from there the loop does not return, whatever the fuel. *)
Theorem repeated_window_never_ends start fuel chunks :
  0 < start < len text ->
  cut_point self text start - chunk_overlap self = start ->
  split_loop self text fuel start chunks = None.
Proof.
  intros Hs Hfix. revert chunks.
  induction fuel as [|fuel IH]; intros chunks; simpl; [done|].
  destruct (Z.ltb_spec start (len text)); [|lia].
  rewrite Hfix. destruct (Z.leb_spec start 0); [lia|]. apply IH.
Qed.

(** Without overlap the chunker always returns, and the windows it cuts
    split the text: put end to end, unstripped, they are the text, and the
    chunks are these windows stripped, the empty ones left out. *)
Theorem chunker_without_overlap_partitions :
  0 < chunk_size self -> chunk_overlap self = 0 ->
  chunk_size self < len text ->
  exists chunks ws,
    _split_text_into_chunks self text (S (Z.to_nat (len text))) = Some chunks /\
    chunks = nonempty_chunks (map (fun w => strip (slice text w.1 w.2)) ws) /\
    concat (map (fun w => slice text w.1 w.2) ws) = text /\
    chained 0 0 ws.
Proof.
  intros Hpos Hov Hlong.
  assert (Hno : no_repeated_window self text).
  { intros s Hs. pose proof (cut_point_range self text Hpos s ltac:(lia)). lia. }
  destruct (split_loop_returns self text Hpos ltac:(lia) Hno []) as [chunks Hrun].
  exists chunks. unfold _split_text_into_chunks.
  destruct (Z.leb_spec (len text) (chunk_size self)); [lia|].
  rewrite split_loop_windows in Hrun.
  destruct (split_windows self text _ 0 []) as [ws|] eqn:Hws; [|done].
  injection Hrun as <-. exists ws.
  destruct (split_windows_chained self text _ 0 ws Hpos (Z.le_refl 0) Hws)
    as [Hchain Hf].
  pose proof (split_windows_ends_0 self text _ ws Hpos ltac:(lia) Hws) as Hmono.
  pose proof (split_windows_exit self text _ 0 ws 0 Hws) as Hexit.
  rewrite split_loop_windows, Hws. rewrite Hov in *.
  split; [done|]. split; [done|]. split; [|done].
  rewrite <- remove_no_overlap, <- Hov.
  rewrite windows_reconstruct; [ | lia | by rewrite Hov | done | ].
  - apply slice_all. destruct ws as [|w ws]; [lia|].
    assert (0 < last_end 0 (w :: ws)).
    { apply Forall_cons in Hf as [Hw _]. destruct Hmono as [_ Hm].
      pose proof (last_end_ge ws w.2 Hm). simpl. lia. }
    lia.
  - eapply Forall_impl; [exact Hf|]. simpl. intros; lia.
Qed.
End ProgressClaims.

Section EarlyBreak.
Import DocumentProcessor.
Variable self : DocumentProcessor.t.
Variable text : str.

(** A first sentence that ends within the first [chunk_overlap]
    characters ends the chunking: the step back by the overlap reaches the
    origin, the loop leaves, and that sentence is the only chunk, whatever
    follows it in the text. *)
Theorem short_first_sentence_ends_chunking q c fuel :
  0 < q < chunk_overlap self -> chunk_overlap self < chunk_size self ->
  chunk_size self < len text ->
  char_at text q = Some c -> is_sentence_end c = true ->
  (forall q' c', chunk_overlap self <= q' < chunk_size self ->
     char_at text q' = Some c' -> is_sentence_end c' = false) ->
  exists e,
    q < e <= chunk_overlap self /\
    _split_text_into_chunks self text (S fuel)
      = Some (nonempty_chunks [strip (slice text 0 e)]).
Proof.
  intros Hq Hov Hlong Hc Hend Hnone.
  destruct (sentence_end_spec text 0 (chunk_size self))
    as (Hrange & Hfound & Hmax); [lia | lia | lia |].
  set (se := Z.max _ _) in *.
  pose proof (Hmax q c ltac:(lia) Hc Hend) as Hle.
  destruct Hfound as (c' & Hc' & Hend'); [lia|].
  assert (He : cut_point self text 0 = se + 1).
  { unfold cut_point. rewrite Z.add_0_l. fold se.
    destruct (Z.ltb_spec (chunk_size self) (len text)); [|lia].
    destruct (Z.gtb_spec se 0); [done | lia]. }
  exists (cut_point self text 0).
  assert (se < chunk_overlap self).
  { destruct (Z.lt_ge_cases se (chunk_overlap self)); [done|].
    rewrite (Hnone se c') in Hend'; [done | lia | done]. }
  split; [lia|].
  unfold _split_text_into_chunks.
  destruct (Z.leb_spec (len text) (chunk_size self)); [lia|].
  cbn [split_loop].
  destruct (Z.ltb_spec 0 (len text)); [|lia].
  destruct (Z.leb_spec (cut_point self text 0 - chunk_overlap self) 0); [|lia].
  by rewrite append_chunk_alt.
Qed.
End EarlyBreak.

(** * More on the pipeline *)

Section RankingFacts.
Import RAGPipeline.
Context {Score : Type} (score_lt : Score -> Score -> bool).
Implicit Types (x y : @Hit Score) (l : list (@Hit Score)).

Lemma insert_by_score_perm x l : insert_by_score score_lt x l ≡ₚ x :: l.
Proof.
  induction l as [|y l IH]; simpl; [done|].
  destruct (score_lt (score x) (score y)); [|done].
  rewrite IH. apply Permutation_swap.
Qed.

Lemma sort_by_score_perm l : sort_by_score score_lt l ≡ₚ l.
Proof.
  induction l as [|x l IH]; simpl; [done|].
  rewrite insert_by_score_perm. by rewrite IH.
Qed.

Lemma insert_by_score_sorted x l :
  (forall a b, score_lt a b = true -> score_lt b a = false) ->
  (forall a b c, score_lt a b = false -> score_lt b c = false ->
                 score_lt a c = false) ->
  StronglySorted (not_below score_lt) l ->
  StronglySorted (not_below score_lt) (insert_by_score score_lt x l).
Proof.
  intros Hasym Htrans. induction l as [|y l IH]; simpl; intros Hs.
  - repeat constructor.
  - apply StronglySorted_inv in Hs as [Hs Hy].
    destruct (score_lt (score x) (score y)) eqn:E.
    + unfold not_below in *. constructor; [by apply IH|].
      apply Forall_forall. intros z Hz.
      apply list_elem_of_In in Hz.
      eapply Permutation_in in Hz; [|apply insert_by_score_perm].
      destruct Hz as [<-|Hz]; [by apply Hasym|].
      rewrite Forall_forall in Hy. apply Hy. by apply list_elem_of_In.
    + unfold not_below in *. constructor; [by constructor|].
      constructor; [done|].
      eapply Forall_impl; [exact Hy|]. intros z Hz. by eapply Htrans.
Qed.

Lemma sort_by_score_sorted l :
  (forall a b, score_lt a b = true -> score_lt b a = false) ->
  (forall a b c, score_lt a b = false -> score_lt b c = false ->
                 score_lt a c = false) ->
  StronglySorted (not_below score_lt) (sort_by_score score_lt l).
Proof.
  intros Hasym Htrans. induction l as [|x l IH]; simpl; [constructor|].
  by apply insert_by_score_sorted.
Qed.
End RankingFacts.

Section PipelineExtras.
Import RAGPipeline.
Context {Score : Type} (score_lt : Score -> Score -> bool).
Implicit Types (self : @t Score) (docs : list (@Hit Score)).

(** When the search answers, the retrieved documents are its results, none
    lost and none added, each ahead of all those it is not ranked below:
    for a comparison that behaves as [<] on numbers, in order of
    decreasing score. *)
Theorem retrieved_documents_are_ranked self question k results :
  (forall a b, score_lt a b = true -> score_lt b a = false) ->
  (forall a b c, score_lt a b = false -> score_lt b c = false ->
                 score_lt a c = false) ->
  similarity_search_with_score (vector_store self) question k = Ok results ->
  exists docs,
    _retrieve_documents score_lt self question k = Ok docs /\
    docs ≡ₚ map to_hit results /\
    StronglySorted (not_below score_lt) docs.
Proof.
  intros Hasym Htrans Hsearch. unfold _retrieve_documents. rewrite Hsearch.
  eexists. split; [reflexivity|]. split.
  - apply sort_by_score_perm.
  - by apply sort_by_score_sorted.
Qed.

(** A search that fails and a search that finds nothing are answered
    alike: the fixed sentence, no sources, and nothing of the generator. *)
Theorem no_documents_gives_fixed_answer self question k :
  (exists e, similarity_search_with_score (vector_store self) question k
             = Raise e) \/
  similarity_search_with_score (vector_store self) question k = Ok [] ->
  query score_lt self question k =
  Ok (mkResponse
        (lit "I couldn't find any relevant information in the uploaded documents to answer your question.")
        []).
Proof.
  intros [[e H]|H]; unfold query, _retrieve_documents; by rewrite H.
Qed.
End PipelineExtras.

Section BlankFacts.
Implicit Types (s : str) (c : ascii).

Lemma lstrip_snoc_nonempty s c : isspace c = false -> lstrip (s ++ [c]) <> [].
Proof.
  intros Hc. induction s as [|x s IH]; simpl.
  - by rewrite Hc.
  - by destruct (isspace x).
Qed.

(** A string that starts with a character other than whitespace is not
    blank. *)
Lemma strip_nonblank c s : isspace c = false -> strip (c :: s) <> [].
Proof.
  intros Hc. unfold strip, rstrip. simpl. rewrite Hc.
  rewrite reverse_cons. intros H.
  apply (f_equal reverse) in H. rewrite reverse_involutive in H.
  by apply (lstrip_snoc_nonempty (reverse s) c).
Qed.

Lemma strip_lit_app_nonblank (a : string) s c r :
  lit a = c :: r -> isspace c = false -> strip (lit a ++ s) <> [].
Proof. intros -> Hc. by apply strip_nonblank. Qed.

Lemma is_blank_spec s :
  is_nil s || is_nil (strip s) = false <-> strip s <> [].
Proof.
  destruct s as [|c s]; [by split|]. simpl is_nil at 1. simpl orb.
  destruct (strip (c :: s)); simpl; split; done.
Qed.
End BlankFacts.

Section AnswerFacts.
Import RAGPipeline.
Context {Score : Type} (score_lt : Score -> Score -> bool).
Implicit Types (self : @t Score) (docs : list (@Hit Score)).

Lemma generate_nonblank self question context :
  exists answer,
    _generate_answer self question context = Ok answer /\ strip answer <> [].
Proof.
  unfold _generate_answer.
  destruct (generate_response _ _) as [a|[msg]];
    cbn [try_except mbind result_bind].
  - destruct (is_nil a || is_nil (strip a)) eqn:E.
    + eexists. split; [reflexivity|]. by vm_compute.
    + eexists. split; [reflexivity|]. by apply is_blank_spec.
  - eexists. split; [reflexivity|].
    eapply strip_lit_app_nonblank; reflexivity.
Qed.

(** The two ways in which [query] ends. *)
Lemma query_cases self question num_sources :
  query score_lt self question num_sources =
    Ok (mkResponse
          (lit "I couldn't find any relevant information in the uploaded documents to answer your question.")
          []) \/
  exists docs generated,
    _generate_answer self question (_prepare_context self docs)
      = Ok generated /\
    query score_lt self question num_sources =
      Ok (mkResponse generated (_format_sources docs)).
Proof.
  destruct (retrieve_returns score_lt self question num_sources)
    as [docs Hdocs].
  destruct docs as [|doc docs].
  - left. unfold query. by rewrite Hdocs.
  - right.
    rewrite (query_with_documents score_lt self question num_sources
               (doc :: docs) Hdocs) by done.
    destruct (generate_nonblank self question
                (_prepare_context self (doc :: docs))) as (a & Ha & _).
    exists (doc :: docs), a. split; [done|]. by rewrite Ha.
Qed.

(** The answer of a response is never blank: not empty, and not made of
    whitespace only. *)
Theorem query_answer_is_never_blank self question num_sources :
  exists response,
    query score_lt self question num_sources = Ok response /\
    strip (answer response) <> [].
Proof.
  destruct (query_cases self question num_sources)
    as [Hq | (docs & a & Ha & Hq)]; rewrite Hq.
  - eexists. split; [reflexivity|]. by vm_compute.
  - eexists. split; [reflexivity|]. simpl.
    destruct (generate_nonblank self question (_prepare_context self docs))
      as (a' & Ha' & Hne).
    rewrite Ha in Ha'. by injection Ha' as ->.
Qed.
End AnswerFacts.

Section BudgetFacts.
Import RAGPipeline.
Context {Score : Type}.
Implicit Types (self : @t Score) (docs : list (@Hit Score)).

Lemma sum_len_nonneg (parts : list str) : 0 <= sum_len parts.
Proof.
  induction parts as [|p l IH]; simpl; [lia|].
  pose proof (len_nonneg p). lia.
Qed.

(** The blocks of the loop are those of a prefix of the documents, and the
    document after that prefix, if any, did not fit. *)
Lemma prepare_loop_prefix max_length docs : forall i current_length,
  let parts := prepare_loop max_length i docs [] current_length in
  parts = imap (fun j => doc_text (i + j)) (take (length parts) docs) /\
  (forall doc, docs !! length parts = Some doc ->
     current_length + sum_len parts + len (doc_text (i + length parts) doc)
     > max_length).
Proof.
  induction docs as [|doc docs IH]; intros i cur; simpl; [done|].
  destruct (Z.gtb_spec (cur + len (doc_text i doc)) max_length) as [Hgt|Hle].
  - simpl. split; [done|]. intros d [= <-]. rewrite Nat.add_0_r. lia.
  - rewrite prepare_loop_acc. simpl.
    destruct (IH (S i) (cur + len (doc_text i doc))) as [IH1 IH2].
    split.
    + rewrite Nat.add_0_r. f_equal.
      etransitivity; [exact IH1|].
      apply imap_ext. intros j d _. simpl. f_equal. lia.
    + intros d Hd. specialize (IH2 d Hd).
      replace (i + S (length (prepare_loop max_length (S i) docs []
                                (cur + len (doc_text i doc)))))%nat
        with (S i + length (prepare_loop max_length (S i) docs []
                              (cur + len (doc_text i doc))))%nat by lia.
      lia.
Qed.

Lemma prepare_loop_all max_length docs : forall i current_length,
  current_length + sum_len (imap (fun j => doc_text (i + j)) docs)
    <= max_length ->
  prepare_loop max_length i docs [] current_length
  = imap (fun j => doc_text (i + j)) docs.
Proof.
  induction docs as [|doc docs IH]; intros i cur; simpl; [done|].
  rewrite Nat.add_0_r. intros Hfit.
  pose proof (sum_len_nonneg (imap (fun j => doc_text (i + S j)) docs)).
  change (imap ((fun j => doc_text (i + j)) ∘ S) docs)
    with (imap (fun j => doc_text (i + S j)) docs) in *.
  destruct (Z.gtb_spec (cur + len (doc_text i doc)) max_length); [lia|].
  rewrite prepare_loop_acc. simpl. f_equal.
  assert (E : imap (fun j => doc_text (S i + j)) docs
              = imap (fun j => doc_text (i + S j)) docs)
    by (apply imap_ext; intros j d _; simpl; f_equal; lia).
  rewrite IH; [exact E | rewrite E; lia].
Qed.

(** The context is as long as its blocks and the newlines between them:
    with [n] blocks, up to [n - 1] characters over the budget, and within
    it when at most one block was taken. *)
Theorem context_length_counts_separators self docs :
  context_parts self docs <> [] ->
  len (_prepare_context self docs)
    = sum_len (context_parts self docs)
      + Z.of_nat (length (context_parts self docs)) - 1 /\
  len (_prepare_context self docs)
    <= max_context_length self
       + Z.of_nat (length (context_parts self docs)) - 1.
Proof.
  intros Hne. rewrite len_prepare_context.
  destruct (context_parts_budget self docs) as [|Hb]; [done|].
  destruct (context_parts self docs) as [|p l]; [done|].
  simpl length in *. lia.
Qed.

(** The context takes the longest run of leading documents whose blocks
    fit the budget together: the blocks are those of the first [n]
    documents with the labels [1] to [n], and the document after them, if
    there is one, would have gone over the budget. *)
Theorem context_is_longest_fitting_prefix self docs :
  let parts := context_parts self docs in
  parts = imap doc_text (take (length parts) docs) /\
  (length parts <= length docs)%nat /\
  (forall doc, docs !! length parts = Some doc ->
     sum_len parts + len (doc_text (length parts) doc)
     > max_context_length self).
Proof.
  cbv zeta. unfold context_parts.
  destruct (prepare_loop_prefix (max_context_length self) docs 0 0)
    as [H1 H2].
  split; [exact H1|]. split; [apply prepare_loop_length|].
  intros doc Hdoc. specialize (H2 doc Hdoc). simpl in H2. lia.
Qed.

(** When the blocks of all documents fit the budget together, all of them
    are in the context. *)
Theorem context_takes_all_that_fit self docs :
  sum_len (imap doc_text docs) <= max_context_length self ->
  context_parts self docs = imap doc_text docs.
Proof.
  intros Hfit. unfold context_parts.
  apply (prepare_loop_all (max_context_length self) docs 0 0). exact Hfit.
Qed.
End BudgetFacts.

(** * Reading files *)

Section SplitFacts.
Import FileProcessing.
Implicit Types (s : str) (sep : ascii).

Lemma split_no_sep sep s : sep ∉ s -> split sep s = [s].
Proof.
  induction s as [|c s IH]; simpl; [done|].
  intros Hn. apply not_elem_of_cons in Hn as [Hc Hs].
  destruct (Ascii.eqb_spec c sep); [congruence|]. by rewrite IH.
Qed.

Lemma split_snoc sep s ext :
  sep ∉ ext ->
  exists seg segs, split sep (s ++ sep :: ext) = (seg :: segs) ++ [ext].
Proof.
  intros Hn. induction s as [|c s (seg & segs & IH)]; simpl.
  - rewrite Ascii.eqb_refl, split_no_sep by done. by exists [], [].
  - rewrite IH. destruct (Ascii.eqb c sep); simpl.
    + by exists [], (seg :: segs).
    + by exists (c :: seg), segs.
Qed.

Lemma lstrip_all_space s : Forall (fun c => isspace c = true) s -> lstrip s = [].
Proof.
  induction 1 as [|c s Hc _ IH]; simpl; [done | by rewrite Hc].
Qed.

Lemma strip_all_space s : Forall (fun c => isspace c = true) s -> strip s = [].
Proof. intros H. unfold strip. by rewrite lstrip_all_space. Qed.
End SplitFacts.

Section ReadingFacts.
Import FileProcessing.
Variable self : DocumentProcessor.t.
Variable libs : Libraries.

(** The block of one page. *)
Lemma pdf_pages_loop_acc pages : forall page_num text,
  pdf_pages_loop page_num pages text
  = text ++ pdf_pages_loop page_num pages [].
Proof.
  induction pages as [|[t|e] pages IH]; intros n text;
    cbn [pdf_pages_loop].
  - by rewrite app_nil_r.
  - destruct (is_nil t); [apply IH|].
    rewrite (IH _ (text ++ _)), (IH _ ([] ++ _)).
    by rewrite <- !app_assoc.
  - apply IH.
Qed.

Lemma paragraphs_loop_blank ps text :
  Forall (fun p => strip p = []) ps -> paragraphs_loop ps text = text.
Proof.
  intros H. revert text. induction H as [|p ps Hp _ IH]; intros text; simpl;
    [done | rewrite Hp; apply IH].
Qed.

Lemma cells_loop_blank cells text :
  Forall (fun c => strip c = []) cells -> cells_loop cells text = text.
Proof.
  intros H. revert text. induction H as [|p ps Hp _ IH]; intros text; simpl;
    [done | rewrite Hp; apply IH].
Qed.

Lemma rows_loop_blank rows : forall text,
  Forall (Forall (fun c => strip c = [])) rows ->
  Forall (fun c => isspace c = true) text ->
  Forall (fun c => isspace c = true) (rows_loop rows text).
Proof.
  induction rows as [|row rows IH]; intros text Hr Ht; simpl; [done|].
  apply Forall_cons in Hr as [Hrow Hr].
  apply IH; [done|]. rewrite cells_loop_blank by done.
  apply Forall_app. split; [done | by repeat constructor].
Qed.

Lemma tables_loop_blank ts : forall text,
  Forall (Forall (Forall (fun c => strip c = []))) ts ->
  Forall (fun c => isspace c = true) text ->
  Forall (fun c => isspace c = true) (tables_loop ts text).
Proof.
  induction ts as [|table ts IH]; intros text Hr Ht; simpl; [done|].
  apply Forall_cons in Hr as [Htable Hr].
  apply IH; [done|]. by apply rows_loop_blank.
Qed.

Lemma pdf_pages_loop_no_text pages : forall page_num text,
  Forall (fun page => forall t, page = RAGPipeline.Ok t -> t = []) pages ->
  pdf_pages_loop page_num pages text = text.
Proof.
  induction pages as [|[t|e] pages IH]; intros n text Hp; simpl; [done| |];
    apply Forall_cons in Hp as [Hpage Hp].
  - rewrite (Hpage t eq_refl). simpl. by apply IH.
  - by apply IH.
Qed.

Lemma process_file_blank fuel uploaded_file text :
  extract_text libs uploaded_file (file_extension (name uploaded_file))
    = RAGPipeline.Ok text ->
  strip text = [] ->
  process_file self libs fuel uploaded_file = Some [].
Proof. intros He Hs. unfold process_file. by rewrite He, Hs. Qed.
End ReadingFacts.

Section ReadingClaims.
Import FileProcessing.
Variable self : DocumentProcessor.t.
Variable libs : Libraries.

(** The extension is what follows the last dot of the name, in lower
    case; a name without a dot is its own extension. *)
Theorem extension_follows_last_dot (base ext : str) :
  "."%char ∉ ext ->
  file_extension (base ++ "."%char :: ext) = lower ext /\
  file_extension ext = lower ext.
Proof.
  intros Hn. unfold file_extension. split.
  - destruct (split_snoc "." base ext Hn) as (seg & segs & ->).
    by rewrite List.last_last.
  - by rewrite split_no_sep.
Qed.

(** A file of another type than PDF, DOCX or TXT gives no chunks,
    whatever it holds. *)
Theorem unsupported_file_type_gives_no_chunks fuel uploaded_file :
  file_extension (name uploaded_file) <> lit "pdf" ->
  file_extension (name uploaded_file) <> lit "docx" ->
  file_extension (name uploaded_file) <> lit "txt" ->
  process_file self libs fuel uploaded_file = Some [].
Proof.
  intros H1 H2 H3. unfold process_file, extract_text.
  by rewrite !bool_decide_eq_false_2.
Qed.

(** The chunks of a file are numbered from 0 in the order of the text,
    and each carries the name of the file and its extension. *)
Theorem chunks_are_numbered_in_order fuel uploaded_file chunks :
  process_file self libs fuel uploaded_file = Some chunks ->
  forall (i : nat) chunk, chunks !! i = Some chunk ->
    metadata chunk !! "chunk_id"%string
      = Some (RAGPipeline.MInt (Z.of_nat i)) /\
    metadata chunk !! "source"%string
      = Some (RAGPipeline.MStr (name uploaded_file)) /\
    metadata chunk !! "file_type"%string
      = Some (RAGPipeline.MStr (file_extension (name uploaded_file))).
Proof.
  unfold process_file.
  destruct (extract_text _ _ _) as [text|e]; [|by intros [= <-]].
  destruct (is_nil (strip text)); [by intros [= <-]|].
  destruct (DocumentProcessor._split_text_into_chunks self text fuel)
    as [cs|]; [|done].
  intros [= <-] i chunk. rewrite list_lookup_imap.
  destruct (cs !! i) as [c|]; [|done].
  intros [= <-]. simpl. unfold chunk_metadata.
  repeat split; by simplify_map_eq.
Qed.

(** No chunk of a file is blank. *)
Theorem chunk_contents_are_never_blank fuel uploaded_file chunks :
  process_file self libs fuel uploaded_file = Some chunks ->
  Forall (fun chunk => strip (content chunk) <> []) chunks.
Proof.
  unfold process_file.
  destruct (extract_text _ _ _) as [text|e]; [|by intros [= <-]].
  destruct (is_nil (strip text)) eqn:Hblank; [by intros [= <-]|].
  destruct (DocumentProcessor._split_text_into_chunks self text fuel)
    as [cs|] eqn:Hsplit; [|done].
  intros [= <-]. apply Forall_forall. intros chunk Hin.
  apply list_elem_of_lookup in Hin as [i Hi].
  rewrite list_lookup_imap in Hi.
  destruct (cs !! i) as [c|] eqn:Hc; [|done].
  injection Hi as <-. simpl.
  unfold DocumentProcessor._split_text_into_chunks in Hsplit.
  destruct (Z.leb_spec (len text) (DocumentProcessor.chunk_size self)).
  - injection Hsplit as <-. destruct i; [|done].
    injection Hc as <-. by destruct (strip text).
  - assert (Hall : Forall (fun c => c <> [] /\ stripped c /\ strip c = c) cs).
    { rewrite split_loop_windows in Hsplit.
      destruct (DocumentProcessor.split_windows self text fuel 0 [])
        as [ws|]; [|done].
      injection Hsplit as <-. apply window_chunks_stripped. }
    rewrite Forall_forall in Hall.
    destruct (Hall c) as (Hne & _ & ->); [|done].
    by eapply list_elem_of_lookup_2.
Qed.

(** A text file is always read: as UTF-8 when its bytes are valid UTF-8,
    and byte for byte as Latin-1 otherwise. The third encoding is never
    tried and the decoding error never raised. *)
Theorem txt_is_always_decoded uploaded_file :
  _extract_from_txt libs uploaded_file =
  RAGPipeline.Ok (default (data uploaded_file)
                    (decode_utf_8 libs (data uploaded_file))).
Proof.
  unfold _extract_from_txt. simpl.
  by destruct (decode_utf_8 libs (data uploaded_file)).
Qed.
End ReadingClaims.

Section NoTextClaims.
Import FileProcessing.
Variable self : DocumentProcessor.t.
Variable libs : Libraries.

(** A PDF that cannot be opened, or none of whose pages gives text, has
    no chunks: pages that fail are passed over, and nothing is left. *)
Theorem pdf_without_text_gives_no_chunks fuel uploaded_file :
  file_extension (name uploaded_file) = lit "pdf" ->
  (forall pages, PdfReader libs (data uploaded_file) = RAGPipeline.Ok pages ->
     Forall (fun page => forall t, page = RAGPipeline.Ok t -> t = []) pages) ->
  process_file self libs fuel uploaded_file = Some [].
Proof.
  intros Hext Hpages. unfold process_file, extract_text. rewrite Hext.
  rewrite bool_decide_eq_true_2 by done.
  unfold _extract_from_pdf.
  destruct (PdfReader libs (data uploaded_file)) as [pages|e] eqn:E; [|done].
  cbn [mbind RAGPipeline.result_bind RAGPipeline.try_except].
  by rewrite (pdf_pages_loop_no_text pages 0 [] (Hpages pages eq_refl)).
Qed.

(** A DOCX all of whose paragraphs and table cells are blank has no
    chunks, however many table rows it has. *)
Theorem docx_with_blank_content_gives_no_chunks fuel uploaded_file doc :
  file_extension (name uploaded_file) = lit "docx" ->
  Document libs (data uploaded_file) = RAGPipeline.Ok doc ->
  Forall (fun p => strip p = []) (paragraphs doc) ->
  Forall (Forall (Forall (fun cell => strip cell = []))) (tables doc) ->
  process_file self libs fuel uploaded_file = Some [].
Proof.
  intros Hext Hdoc Hp Ht. unfold process_file, extract_text. rewrite Hext.
  rewrite bool_decide_eq_false_2 by done.
  rewrite bool_decide_eq_true_2 by done.
  unfold _extract_from_docx. rewrite Hdoc.
  cbn [mbind RAGPipeline.result_bind RAGPipeline.try_except].
  rewrite paragraphs_loop_blank by done.
  rewrite strip_all_space; [done|].
  by apply tables_loop_blank.
Qed.
End NoTextClaims.

(** * The generator *)

Section GeminiFacts.
Import GeminiClient.

Lemma strip_idemp (s : str) : strip (strip s) = strip s.
Proof. apply stripped_strip, strip_stripped. Qed.

(** What [generate_response] returns has no whitespace around it, and
    what it raises is the failure of the API behind a fixed prefix. *)
Theorem generate_response_strips_and_wraps self prompt max_tokens :
  match generate_response self prompt max_tokens with
  | RAGPipeline.Ok answer => strip answer = answer
  | RAGPipeline.Raise e =>
      exists e0,
        generate_content self (model_name self) prompt max_tokens
          = RAGPipeline.Raise e0 /\
        RAGPipeline.str_of_exn e
          = lit "Failed to generate response: " ++ RAGPipeline.str_of_exn e0
  end.
Proof.
  unfold generate_response.
  destruct (generate_content _ _ _ _) as [[text|]|e0]; simpl.
  - destruct (is_nil text); [by vm_compute | apply strip_idemp].
  - by vm_compute.
  - by exists e0.
Qed.

(** Only the last five messages of the conversation reach the prompt. *)
Theorem chat_uses_last_five_messages self older recent current_query :
  length recent = 5%nat ->
  generate_chat_response self (older ++ recent) current_query
  = generate_chat_response self recent current_query.
Proof.
  intros Hlen. unfold generate_chat_response, last_five.
  rewrite length_app, Hlen.
  replace (length older + 5 - 5)%nat with (length older) by lia.
  rewrite drop_app_length. simpl. by rewrite drop_0.
Qed.
End GeminiFacts.

Section GeminiPipeline.
Import RAGPipeline.
Context {Score : Type}.

(** The answer of a pipeline that generates with the Gemini client: the
    text of the API without surrounding whitespace; the fixed sentence of
    the pipeline when that text is blank, the one of the client when it is
    missing or empty; and the failure of the API behind both prefixes. *)
Theorem answer_with_gemini_client (self : @t Score) client question context :
  gemini_client self = GeminiClient.for_pipeline client ->
  _generate_answer self question context =
  Ok (match GeminiClient.generate_content client
              (GeminiClient.model_name client) (prompt question context) 1000
      with
      | Ok (Some text) =>
          if is_nil text then GeminiClient.apology
          else if is_nil (strip text)
          then lit "I was unable to generate an answer to your question. Please try rephrasing your question or check if your documents contain relevant information."
          else strip text
      | Ok None => GeminiClient.apology
      | Raise e =>
          lit "I encountered an error while generating an answer: "
            ++ lit "Failed to generate response: " ++ str_of_exn e
      end).
Proof.
  intros Hclient. unfold _generate_answer. rewrite Hclient.
  cbn [generate_response GeminiClient.for_pipeline].
  unfold GeminiClient.generate_response.
  destruct (GeminiClient.generate_content _ _ _ _) as [[text|]|e];
    cbn [try_except mbind result_bind str_of_exn]; [| reflexivity | reflexivity].
  destruct (is_nil text); cbn [try_except mbind result_bind]; [reflexivity|].
  rewrite strip_idemp.
  destruct (strip text); reflexivity.
Qed.
End GeminiPipeline.

(** * The session *)

Section SessionFacts.
Import App.
Context {Score : Type} (score_lt : Score -> Score -> bool).
Variable env : @Components Score.
Implicit Types (state : @SessionState Score).


Lemma consistent_frame state state' :
  vector_store state' = vector_store state ->
  rag_pipeline state' = rag_pipeline state ->
  documents_processed state' = documents_processed state ->
  consistent state -> consistent state'.
Proof. unfold consistent. by intros -> -> ->. Qed.

Lemma chat_input_frame state prompt :
  vector_store (chat_input score_lt state prompt) = vector_store state /\
  rag_pipeline (chat_input score_lt state prompt) = rag_pipeline state /\
  documents_processed (chat_input score_lt state prompt)
    = documents_processed state.
Proof. unfold chat_input. by repeat case_match. Qed.

Lemma run_consistent state a state' :
  consistent state -> run score_lt env state a = Some state' ->
  consistent state'.
Proof.
  intros Hc. destruct a as [fuel files|prompt| |]; simpl.
  - unfold process_uploaded_files.
    destruct (get_gemini_client env) as [client|]; [|by intros [= <-]].
    destruct (files_loop env fuel files []) as [chunks|]; [|done]. simpl.
    destruct (is_nil chunks); [by intros [= <-]|].
    destruct (VectorStoreManager.create_vector_store _ chunks) as [store|e];
      simpl; [|by intros [= <-]].
    intros [= <-]. unfold consistent. simpl. eauto 10.
  - intros [= <-].
    destruct (chat_input_frame state prompt) as (H1 & H2 & H3).
    by apply (consistent_frame state).
  - intros [= <-]. by apply (consistent_frame state).
  - by intros [= <-].
Qed.

End SessionFacts.

Section SessionClaims.
Import App.
Context {Score : Type} (score_lt : Score -> Score -> bool).
Variable env : @Components Score.
Implicit Types (state : @SessionState Score).

(** Whatever the user does, the session is either empty, with no store
    and no pipeline, or ready, with a pipeline that queries the store of
    the session under a budget of 4000 characters: the flag
    [documents_processed] is never set without a pipeline. *)
Theorem session_is_empty_or_ready state :
  reachable score_lt env state -> consistent state.
Proof.
  induction 1 as [|state a state' _ IH Hrun].
  - by split.
  - by eapply run_consistent.
Qed.


End SessionClaims.

(** * The theorems at sample inputs *)

Section ChunkerSamples.
Import DocumentProcessor.

(** The chunks of the sample sentence are stripped. *)
Lemma loop_chunks_are_stripped_witness :
  Forall (fun c => c <> [] /\ stripped c /\ strip c = c)
    [lit "Hello world."; lit ". This is a test";
     lit "t sentence that"; lit "t continues on."].
Proof.
  apply (loop_chunks_are_stripped (mk 20 1) hello 10); reflexivity.
Defined.

(** They occur in the sentence. *)
Lemma chunks_occur_in_text_witness :
  Forall (fun c => occurs_in c hello)
    [lit "Hello world."; lit ". This is a test";
     lit "t sentence that"; lit "t continues on."].
Proof. apply (chunks_occur_in_text (mk 20 1) hello 10). reflexivity. Defined.

(** The first window of the sentence ends after ["Hello world."]. *)
Lemma sentence_end_is_preferred_witness :
  11 < cut_point (mk 20 1) hello 0 <= 20.
Proof.
  apply (sentence_end_is_preferred (mk 20 1) hello 0 11 "."%char);
    [lia | cbn; lia | reflexivity | reflexivity | reflexivity].
Defined.

(** The first window of ["ab cd ef gh"] ends at its last space. *)
Lemma space_is_second_choice_witness :
  2 <= cut_point (mk 5 0) words 0 < 5.
Proof.
  apply (space_is_second_choice (mk 5 0) words 0 2);
    [lia | cbn; lia | reflexivity | | reflexivity].
  intros q c Hq. cbn in Hq.
  assert (Hcases : q = 1 \/ q = 2 \/ q = 3 \/ q = 4) by lia.
  destruct Hcases as [-> | [-> | [-> | ->]]]; intros [= <-]; reflexivity.
Defined.

(** The first window of a text of letters is cut at [chunk_size]. *)
Lemma hard_cut_otherwise_witness : cut_point (mk 5 0) letters 0 = 5.
Proof.
  apply (hard_cut_otherwise (mk 5 0) letters 0); [cbn; lia | lia |].
  right. intros q c Hq. cbn in Hq.
  assert (Hcases : q = 1 \/ q = 2 \/ q = 3 \/ q = 4) by lia.
  destruct Hcases as [-> | [-> | [-> | ->]]]; intros [= <-];
    (split; [reflexivity | discriminate]).
Defined.

(** Without overlap no window repeats, and the chunker returns. *)
Lemma chunker_returns_unless_window_repeats_witness :
  exists chunks, _split_text_into_chunks (mk 5 0) words 12 = Some chunks.
Proof.
  apply (chunker_returns_unless_window_repeats (mk 5 0) words);
    [cbn; lia | cbn; lia |].
  intros start Hs.
  pose proof (cut_point_range (mk 5 0) words ltac:(cbn; lia) start ltac:(lia)).
  cbn in *. lia.
Defined.

(** The window at 3 of ["aaaa.aaaaa"] repeats. *)
Lemma repeated_window_never_ends_witness :
  split_loop (mk 5 2) stuck_text 1000 3 [] = None.
Proof.
  apply (repeated_window_never_ends (mk 5 2) stuck_text 3 1000 []);
    [split; reflexivity | reflexivity].
Defined.

(** The windows of ["ab cd ef gh"] split it. *)
Lemma chunker_without_overlap_partitions_witness :
  exists chunks ws,
    _split_text_into_chunks (mk 5 0) words 12 = Some chunks /\
    chunks = nonempty_chunks (map (fun w => strip (slice words w.1 w.2)) ws) /\
    concat (map (fun w => slice words w.1 w.2) ws) = words /\
    chained 0 0 ws.
Proof.
  apply (chunker_without_overlap_partitions (mk 5 0) words);
    [cbn; lia | reflexivity | reflexivity].
Defined.

(** ["Hi."] is the only chunk of the text that starts with it. *)
Lemma short_first_sentence_ends_chunking_witness :
  exists e,
    2 < e <= 5 /\
    _split_text_into_chunks (mk 10 5) short_sentence_text 1
      = Some (nonempty_chunks [strip (slice short_sentence_text 0 e)]).
Proof.
  apply (short_first_sentence_ends_chunking (mk 10 5) short_sentence_text
           2 "."%char 0);
    [cbn; lia | cbn; lia | reflexivity | reflexivity | reflexivity |].
  intros q c Hq. cbn in Hq.
  assert (Hcases : q = 5 \/ q = 6 \/ q = 7 \/ q = 8 \/ q = 9) by lia.
  destruct Hcases as [-> | [-> | [-> | [-> | ->]]]]; intros [= <-];
    reflexivity.
Defined.
End ChunkerSamples.

Section PipelineSamples.
Import RAGPipeline.

(** The two hits come back with the higher score first. *)
Lemma retrieved_documents_are_ranked_witness :
  exists docs,
    _retrieve_documents Z.ltb (pipeline 34) (lit "q") 4 = Ok docs /\
    docs ≡ₚ [hit_b; hit_a] /\
    StronglySorted (not_below Z.ltb) docs.
Proof.
  apply (retrieved_documents_are_ranked Z.ltb (pipeline 34) (lit "q") 4
           [(mkDocument (lit "b") meta_x, 1); (mkDocument (lit "a") meta_x, 2)]).
  - intros a b. rewrite Z.ltb_lt, Z.ltb_ge. lia.
  - intros a b c. rewrite !Z.ltb_ge. lia.
  - reflexivity.
Defined.

(** An empty store gives the fixed answer. *)
Lemma no_documents_gives_fixed_answer_witness :
  query Z.ltb (mk empty_store answering_client 4000) (lit "q") 4 =
  Ok (mkResponse
        (lit "I couldn't find any relevant information in the uploaded documents to answer your question.")
        []).
Proof.
  apply (no_documents_gives_fixed_answer Z.ltb
           (mk empty_store answering_client 4000) (lit "q") 4).
  right. reflexivity.
Defined.

(** Two blocks of 17 characters: 35 characters, one over the budget. *)
Lemma context_length_counts_separators_witness :
  len (_prepare_context (pipeline 34) [hit_a; hit_b]) = 17 + 17 + 2 - 1 /\
  len (_prepare_context (pipeline 34) [hit_a; hit_b]) <= 34 + 2 - 1.
Proof.
  apply (context_length_counts_separators (pipeline 34) [hit_a; hit_b]).
  discriminate.
Defined.

(** Both blocks fit a budget of 34. *)
Lemma context_takes_all_that_fit_witness :
  context_parts (pipeline 34) [hit_a; hit_b]
  = [doc_text 0 hit_a; doc_text 1 hit_b].
Proof.
  apply (context_takes_all_that_fit (pipeline 34) [hit_a; hit_b]).
  discriminate.
Defined.

(** With a budget of 20 the first block is taken and the second, which
    would bring the count to 34, is not. *)
Lemma context_is_longest_fitting_prefix_witness :
  context_parts (pipeline 20) [hit_a; hit_b] = [doc_text 0 hit_a] /\
  17 + len (doc_text 1 hit_b) > 20.
Proof.
  destruct (context_is_longest_fitting_prefix (pipeline 20) [hit_a; hit_b])
    as (Hparts & _ & Hstop).
  split; [exact Hparts|]. exact (Hstop hit_b eq_refl).
Defined.

(** The answer of the API is stripped on its way to the user. *)
Lemma answer_with_gemini_client_witness :
  _generate_answer gemini_pipeline (lit "q") (lit "c") = Ok (lit "An answer.").
Proof.
  apply (answer_with_gemini_client gemini_pipeline sample_client
           (lit "q") (lit "c")).
  reflexivity.
Defined.
End PipelineSamples.

Section ReadingSamples.
Import FileProcessing.

(** The extension of ["a.b.PDF"] is ["pdf"]. *)
Lemma extension_follows_last_dot_witness :
  file_extension (lit "a.b.PDF") = lit "pdf" /\
  file_extension (lit "PDF") = lit "pdf".
Proof.
  apply (extension_follows_last_dot (lit "a.b") (lit "PDF")).
  intros H. repeat (apply elem_of_cons in H as [H|H]; [discriminate|]).
  by apply elem_of_nil in H.
Defined.

(** A Markdown file gives no chunks. *)
Lemma unsupported_file_type_gives_no_chunks_witness :
  process_file DocumentProcessor.with_defaults sample_libraries 5
    markdown_file = Some [].
Proof.
  apply (unsupported_file_type_gives_no_chunks
           DocumentProcessor.with_defaults sample_libraries 5 markdown_file);
    discriminate.
Defined.

(** The one chunk of the text file is chunk 0 of ["notes.TXT"]. *)
Lemma chunks_are_numbered_in_order_witness :
  metadata (mkChunk (lit "  hello  ")
              (chunk_metadata (lit "notes.TXT") 0 (lit "txt")))
    !! "chunk_id"%string = Some (RAGPipeline.MInt 0).
Proof.
  apply (chunks_are_numbered_in_order DocumentProcessor.with_defaults
           sample_libraries 5 text_file
           [mkChunk (lit "  hello  ")
              (chunk_metadata (lit "notes.TXT") 0 (lit "txt"))]
           eq_refl 0 _ eq_refl).
Defined.

(** Its content is not blank. *)
Lemma chunk_contents_are_never_blank_witness :
  Forall (fun chunk => strip (content chunk) <> [])
    [mkChunk (lit "  hello  ")
       (chunk_metadata (lit "notes.TXT") 0 (lit "txt"))].
Proof.
  apply (chunk_contents_are_never_blank DocumentProcessor.with_defaults
           sample_libraries 5 text_file).
  reflexivity.
Defined.

(** A PDF of an empty page and a page that fails gives no chunks. *)
Lemma pdf_without_text_gives_no_chunks_witness :
  process_file DocumentProcessor.with_defaults sample_libraries 5
    scanned_pdf = Some [].
Proof.
  apply (pdf_without_text_gives_no_chunks DocumentProcessor.with_defaults
           sample_libraries 5 scanned_pdf); [reflexivity|].
  intros pages [= <-].
  repeat constructor; [by intros t [= <-] | done].
Defined.

(** A DOCX of blank paragraphs and cells gives no chunks. *)
Lemma docx_with_blank_content_gives_no_chunks_witness :
  process_file DocumentProcessor.with_defaults sample_libraries 5
    blank_docx = Some [].
Proof.
  apply (docx_with_blank_content_gives_no_chunks
           DocumentProcessor.with_defaults sample_libraries 5 blank_docx
           (mkDocx [lit " "] [[[lit " "; []]; []]]));
    [reflexivity | reflexivity | by repeat constructor
    | by repeat constructor].
Defined.
End ReadingSamples.

Section GeminiSamples.
Import GeminiClient.

(** The first of six messages does not reach the prompt. *)
Lemma chat_uses_last_five_messages_witness :
  generate_chat_response sample_client (older_messages ++ recent_messages)
    (lit "q4")
  = generate_chat_response sample_client recent_messages (lit "q4").
Proof.
  apply (chat_uses_last_five_messages sample_client older_messages
           recent_messages (lit "q4")).
  reflexivity.
Defined.
End GeminiSamples.

Section SessionSamples.
Import App.

Lemma ready_state_reachable : reachable Z.ltb sample_components ready_state.
Proof.
  apply (reachable_run Z.ltb sample_components initial_state
           (ProcessDocuments 5 [text_file])); [constructor | reflexivity].
Defined.

(** After a text file was processed the session is ready. *)
Lemma session_is_empty_or_ready_witness : consistent ready_state.
Proof.
  apply (session_is_empty_or_ready Z.ltb sample_components ready_state).
  exact ready_state_reachable.
Defined.


End SessionSamples.
